(** * SimplerHashTable (coreclr/inc/simplerhash.inl)

    A shallow embedding of the open-chaining hash table of the runtime:
    magic-number division, the prime table scan, the node store with its
    [m_next] links, and the operations [Lookup], [Set], [Remove], [Grow],
    [Reallocate] and [RemoveAll].  The key iterator is not part of this
    development.

    Conventions.
    - [unsigned] and [uint64_t] values are integers of [Z]; every place
      where the C++ arithmetic wraps is written with [u32] or [u64].
    - [Node] objects live in a store indexed by their address; the bucket
      array is a list of optional addresses, [None] standing for [NULL].
    - An operation is a function from the state to the state it leaves
      and an outcome; [assert]s are not executed (release build).
    - The definitions come first, the proofs after them. *)

From Stdlib Require Import ZArith Lia.
From stdpp Require Import gmap list.

Local Open Scope Z_scope.

(** ** Machine integers *)

Definition u32 (x : Z) : Z := x mod 2 ^ 32.
Definition u64 (x : Z) : Z := x mod 2 ^ 64.
Definition is_u32 (x : Z) : Prop := 0 <= x < 2 ^ 32.

(** ** PrimeInfo and the magic-number routines *)

(** Modelled from the spec: the declaration of [PrimeInfo] is in a
    header that is not part of the sources; the spec gives it as
    [{ prime: u32, magic: u32, shift: u32 }]. *)
Record PrimeInfo := mkPrimeInfo { prime : Z; magic : Z; shift : Z }.

(** [PrimeInfo()] : the descriptor of a table without bucket array. *)
Definition PrimeInfo_zero : PrimeInfo := mkPrimeInfo 0 0 0.

(** [magicNumberDivide]: the 64-bit product of numerator and magic,
    shifted right by [32 + shift], truncated to [unsigned]. *)
Definition magicNumberDivide (numerator : Z) (p : PrimeInfo) : Z :=
  let num := u64 numerator in
  let mag := u64 (magic p) in
  let product := Z.shiftr (u64 (num * mag)) (32 + shift p) in
  u32 product.

(** [magicNumberRem]: numerator minus quotient times prime, in [unsigned]
    arithmetic. *)
Definition magicNumberRem (numerator : Z) (p : PrimeInfo) : Z :=
  let div := magicNumberDivide numerator p in
  let result := u32 (numerator - u32 (div * prime p)) in
  result.

(** The fields of a descriptor are [unsigned], the prime is not zero and
    the shift count stays below the width of the product. *)
Record PrimeInfo_wf (p : PrimeInfo) : Prop := {
  wf_prime : 0 < prime p < 2 ^ 32;
  wf_magic : 0 <= magic p < 2 ^ 32;
  wf_shift : 0 <= shift p < 32
}.

(** "[magic] and [shift] are valid for [prime]": multiplying by the magic
    number and dropping [32 + shift] bits divides every 32-bit numerator
    by the prime. *)
Definition magic_valid (p : PrimeInfo) : Prop :=
  forall n, is_u32 n -> n * magic p / 2 ^ (32 + shift p) = n / prime p.

(** A test on the three constants alone (Hacker's Delight 10-9): the
    product of magic and prime overshoots [2^(32+shift)] by at most
    [2^shift]. *)
Definition magic_check (p : PrimeInfo) : bool :=
  (0 <? prime p) && (prime p <? 2 ^ 32) &&
  (0 <=? magic p) && (magic p <? 2 ^ 32) &&
  (0 <=? shift p) && (shift p <? 32) &&
  (2 ^ (32 + shift p) <=? magic p * prime p) &&
  (magic p * prime p <=? 2 ^ (32 + shift p) + 2 ^ shift p).

(** ** Policies of an instantiation

    The template parameters of [SimplerHashTable]; what the code uses of
    them is taken as given. *)

(** [KeyFuncs]: the key-equality and hash-code policy. *)
Class KeyFuncs (Key : Type) := {
  Equals : Key -> Key -> bool;
  GetHashCode : Key -> Z
}.

(** Modelled from the spec: the behavior classes are declared in a
    header that is not part of the sources.  [Behavior] has the growth
    and density constants, used in [unsigned] arithmetic, and a
    [NoMemory] hook that "does not return a value to the caller"; the
    hook is the outcome [NoMemory] below.  The constants that divide
    are meant to be positive: a zero divisor, undefined in C++, gives
    the quotient 0 here. *)
Class Behavior := {
  s_growth_factor_numerator : Z;
  s_growth_factor_denominator : Z;
  s_density_factor_numerator : Z;
  s_density_factor_denominator : Z;
  s_minimum_allocation : Z
}.

(** Addresses of [Node] objects and of caller-owned [Value] cells. *)
Definition ptr := positive.

(** Modelled from the spec: [IAllocator] is declared outside the
    sources; "failure of allocation is signaled through the Behavior
    policy's failure hook".  [Alloc] hands out the address of a new
    object given the objects that are live, or fails; [ArrayAlloc]
    succeeds or fails on a request for so many array elements. *)
Class IAllocator (A : Type) := {
  Alloc : gmap ptr A -> option ptr;
  ArrayAlloc : Z -> bool
}.

(** ** Outcomes and the state monad of the operations *)

Inductive outcome (A : Type) : Type :=
| Ok (a : A)      (* the call returned [a] *)
| NoMemory        (* [Behavior::NoMemory()] or the allocator gave up *)
| Fault           (* a read or write through [NULL], outside the bucket
                     array or of a freed node *)
| Diverge.        (* a chain walk that does not end *)
Arguments Ok {A} a.
Arguments NoMemory {A}.
Arguments Fault {A}.
Arguments Diverge {A}.

Section Table.
Context {Key Value : Type}.

(** [Node]: key, value and the link to the next node of the bucket. *)
Record Node := mkNode { m_key : Key; m_val : Value; m_next : option ptr }.

(** The memory an operation sees: the live nodes, the members of the
    table object, and the caller's [Value] cells that [Lookup] writes. *)
Record State := mkState {
  nodes : gmap ptr Node;
  m_table : option (list (option ptr));
  m_tableSizeInfo : PrimeInfo;
  m_tableCount : Z;
  m_tableMax : Z;
  cells : gmap ptr Value
}.

Definition M (A : Type) : Type := State -> State * outcome A.

Definition ret {A} (a : A) : M A := fun s => (s, Ok a).

Definition bind {A B} (m : M A) (f : A -> M B) : M B :=
  fun s =>
    match m s with
    | (s', Ok a) => f a s'
    | (s', NoMemory) => (s', NoMemory)
    | (s', Fault) => (s', Fault)
    | (s', Diverge) => (s', Diverge)
    end.

Definition get : M State := fun s => (s, Ok s).
Definition lift {A} (o : outcome A) : M A := fun s => (s, o).
Definition modify (f : State -> State) : M unit := fun s => (f s, Ok tt).

Notation "'do' x <- m ; k" := (bind m (fun x => k))
  (at level 10, x name, m at level 100, k at level 200,
   format "'[v' 'do'  x  <-  m ; '/' k ']'").
Notation "'exec' m ; k" := (bind m (fun _ => k))
  (at level 10, m at level 100, k at level 200,
   format "'[v' 'exec'  m ; '/' k ']'").

(** Field updates. *)
Definition set_nodes (h : gmap ptr Node) (s : State) : State :=
  mkState h (m_table s) (m_tableSizeInfo s) (m_tableCount s) (m_tableMax s) (cells s).
Definition set_table (t : option (list (option ptr))) (s : State) : State :=
  mkState (nodes s) t (m_tableSizeInfo s) (m_tableCount s) (m_tableMax s) (cells s).
Definition set_sizeInfo (p : PrimeInfo) (s : State) : State :=
  mkState (nodes s) (m_table s) p (m_tableCount s) (m_tableMax s) (cells s).
Definition set_count (c : Z) (s : State) : State :=
  mkState (nodes s) (m_table s) (m_tableSizeInfo s) c (m_tableMax s) (cells s).
Definition set_max (c : Z) (s : State) : State :=
  mkState (nodes s) (m_table s) (m_tableSizeInfo s) (m_tableCount s) c (cells s).
Definition set_cells (c : gmap ptr Value) (s : State) : State :=
  mkState (nodes s) (m_table s) (m_tableSizeInfo s) (m_tableCount s) (m_tableMax s) c.

(** The table the constructor leaves: no bucket array, [PrimeInfo()],
    count and max zero. *)
Definition New (c : gmap ptr Value) : State :=
  mkState ∅ None PrimeInfo_zero 0 0 c.

(** *** Memory accesses *)

(** [pN->...] : read the node at [p]. *)
Definition read_node (p : ptr) : M Node :=
  fun s => match nodes s !! p with
           | Some n => (s, Ok n)
           | None => (s, Fault)
           end.

(** Write a member of the node at [p]. *)
Definition write_node (p : ptr) (n : Node) : M unit :=
  fun s => match nodes s !! p with
           | Some _ => (set_nodes (<[p := n]> (nodes s)) s, Ok tt)
           | None => (s, Fault)
           end.

(** [m_table[index]] as an rvalue. *)
Definition read_bucket (index : Z) : M (option ptr) :=
  fun s => match m_table s with
           | Some arr =>
               match arr !! Z.to_nat index with
               | Some hd => (s, Ok hd)
               | None => (s, Fault)
               end
           | None => (s, Fault)
           end.

(** [m_table[index] = v]. *)
Definition write_bucket (index : Z) (v : option ptr) : M unit :=
  fun s => match m_table s with
           | Some arr =>
               if decide (Z.to_nat index < length arr)%nat
               then (set_table (Some (<[Z.to_nat index := v]> arr)) s, Ok tt)
               else (s, Fault)
           | None => (s, Fault)
           end.

(** [*pVal = v] for a caller-owned cell. *)
Definition write_cell (l : ptr) (v : Value) : M unit :=
  modify (fun s => set_cells (<[l := v]> (cells s)) s).

(** [Node::operator delete(pN, m_alloc)]. *)
Definition free_node (p : ptr) : M unit :=
  fun s => match nodes s !! p with
           | Some _ => (set_nodes (delete p (nodes s)) s, Ok tt)
           | None => (s, Fault)
           end.

Context {KF : KeyFuncs Key} {BH : Behavior} {IA : IAllocator Node}.

(** Modelled from the spec: the table [primeInfo] of 27 descriptors is
    declared [extern] and defined in a file that is not part of the
    sources; it is "a strictly ascending, precomputed sequence of (prime,
    magic, shift) entries".  The operations take it as it comes. *)
Variable primeInfo : list PrimeInfo.

(** *** NextPrime *)

(** The loop of [NextPrime]: [n] iterations are left, [i] is the index.
    Falling out of the loop calls [Behavior::NoMemory()]. *)
Fixpoint NextPrime_loop (n : nat) (i : nat) (number : Z) : outcome PrimeInfo :=
  match n with
  | O => NoMemory
  | S n' =>
      match primeInfo !! i with
      | Some p =>
          if number <=? prime p then Ok p
          else NextPrime_loop n' (S i) number
      | None => Fault
      end
  end.

Definition NextPrime (number : Z) : outcome PrimeInfo :=
  NextPrime_loop 27 0 number.

(** *** Lookup *)

Definition GetCount : M Z :=
  do s <- get; ret (m_tableCount s).

Definition GetIndexForKey (k : Key) : M Z :=
  do s <- get;
  let hash := u32 (GetHashCode k) in
  let index := magicNumberRem hash (m_tableSizeInfo s) in
  ret index.

(** [while (pN != NULL && !KeyFuncs::Equals(k, pN->m_key)) pN = pN->m_next;]
    The walk may take [fuel] steps along the chain. *)
Fixpoint find_loop (fuel : nat) (k : Key) (pN : option ptr) : M (option ptr) :=
  match pN with
  | None => ret None
  | Some p =>
      do n <- read_node p;
      if Equals k (m_key n) then ret (Some p)
      else match fuel with
           | O => lift Diverge
           | S fuel' => find_loop fuel' k (m_next n)
           end
  end.

(** A chain without cycle has no more nodes than there are live nodes,
    so that many steps are enough for every walk that ends. *)
Definition walk_fuel (s : State) : nat := size (nodes s).

Definition FindNode (k : Key) : M (option ptr) :=
  do s <- get;
  if prime (m_tableSizeInfo s) =? 0 then ret None
  else
    do index <- GetIndexForKey k;
    do pN <- read_bucket index;
    match pN with
    | None => ret None
    | Some _ => find_loop (walk_fuel s) k pN
    end.

(** [Lookup(key, pVal)]; [pVal = None] is the [NULL] pointer. *)
Definition Lookup (key : Key) (pVal : option ptr) : M bool :=
  do pN <- FindNode key;
  match pN with
  | Some p =>
      exec match pVal with
           | Some l => do n <- read_node p; write_cell l (m_val n)
           | None => ret tt
           end;
      ret true
  | None => ret false
  end.

(** [LookupPointer]: the address of the node whose [m_val] is handed out. *)
Definition LookupPointer (key : Key) : M (option ptr) :=
  FindNode key.

(** *** Growth *)

(** One pass of the inner loop of [Reallocate]: the chain that starts at
    [pN] is unlinked node by node and each node pushed on the chain of
    its bucket in [newTable]. *)
Fixpoint move_chain (fuel : nat) (newPrime : PrimeInfo) (pN : option ptr)
    (newTable : list (option ptr)) : M (list (option ptr)) :=
  match pN with
  | None => ret newTable
  | Some p =>
      do n <- read_node p;
      let pNext := m_next n in
      let newIndex := magicNumberRem (u32 (GetHashCode (m_key n))) newPrime in
      match newTable !! Z.to_nat newIndex with
      | None => lift Fault
      | Some hd =>
          exec write_node p (mkNode (m_key n) (m_val n) hd);
          let newTable' := <[Z.to_nat newIndex := Some p]> newTable in
          match fuel with
          | O => lift Diverge
          | S fuel' => move_chain fuel' newPrime pNext newTable'
          end
      end
  end.

(** The outer loop: [n] buckets of the old array are left, [i] is next. *)
Fixpoint move_buckets (fuel : nat) (newPrime : PrimeInfo) (n : nat) (i : Z)
    (newTable : list (option ptr)) : M (list (option ptr)) :=
  match n with
  | O => ret newTable
  | S n' =>
      do pN <- read_bucket i;
      do newTable' <- move_chain fuel newPrime pN newTable;
      move_buckets fuel newPrime n' (i + 1) newTable'
  end.

(** [Reallocate]: the new array comes from [ArrayAlloc] and is filled
    with [NULL]; the nodes are moved; the old array is freed and the
    members are assigned. *)
Definition Reallocate (newTableSize : Z) : M unit :=
  do newPrime <- lift (NextPrime newTableSize);
  let newTableSize := prime newPrime in
  exec (if ArrayAlloc newTableSize then ret tt else lift NoMemory);
  let newTable := replicate (Z.to_nat newTableSize) (@None ptr) in
  do s <- get;
  do newTable <- move_buckets (walk_fuel s) newPrime
                   (Z.to_nat (prime (m_tableSizeInfo s))) 0 newTable;
  exec modify (set_table (Some newTable));
  exec modify (set_sizeInfo newPrime);
  modify (set_max
    (u32 (u32 (newTableSize * s_density_factor_numerator)
          / s_density_factor_denominator))).

(** The [assert] at the head of [Reallocate], which only a debug build
    executes: [newTableSize >= GetCount() * s_density_factor_denominator
    / s_density_factor_numerator], in [unsigned] arithmetic.  It is the
    precondition the code states for the call. *)
Definition Reallocate_assert (newTableSize : Z) (s : State) : bool :=
  u32 (u32 (m_tableCount s * s_density_factor_denominator)
       / s_density_factor_numerator) <=? newTableSize.

(** The size [Grow] asks for, before and after the floor at
    [s_minimum_allocation]. *)
Definition Grow_newSize (count : Z) : Z :=
  u32 (u32 (u32 (u32 (count * s_growth_factor_numerator)
                 / s_growth_factor_denominator)
            * s_density_factor_denominator)
       / s_density_factor_numerator).

Definition Grow_floored (count : Z) : Z :=
  let newSize := Grow_newSize count in
  if newSize <? s_minimum_allocation then s_minimum_allocation else newSize.

(** The same size in unbounded integer arithmetic, and whether one of
    the two products of the computation leaves the range of [unsigned]. *)
Definition Grow_exact (count : Z) : Z :=
  count * s_growth_factor_numerator / s_growth_factor_denominator
    * s_density_factor_denominator / s_density_factor_numerator.

Definition Grow_overflows (count : Z) : bool :=
  (2 ^ 32 <=? count * s_growth_factor_numerator) ||
  (2 ^ 32 <=? count * s_growth_factor_numerator / s_growth_factor_denominator
              * s_density_factor_denominator).

Definition Grow : M unit :=
  do s <- get;
  let newSize := Grow_floored (m_tableCount s) in
  exec (if newSize <? m_tableCount s then lift NoMemory else ret tt);
  Reallocate newSize.

Definition CheckGrowth : M unit :=
  do s <- get;
  if m_tableCount s =? m_tableMax s then Grow else ret tt.

(** *** Set *)

Definition Set_ (k : Key) (v : Value) : M bool :=
  exec CheckGrowth;
  do index <- GetIndexForKey k;
  do hd <- read_bucket index;
  do s <- get;
  do pN <- find_loop (walk_fuel s) k hd;
  match pN with
  | Some p =>
      do n <- read_node p;
      exec write_node p (mkNode (m_key n) v (m_next n));
      ret true
  | None =>
      do hd' <- read_bucket index;
      do s' <- get;
      match Alloc (nodes s') with
      | None => lift NoMemory
      | Some pNewNode =>
          exec modify (set_nodes (<[pNewNode := mkNode k v hd']> (nodes s')));
          exec write_bucket index (Some pNewNode);
          exec modify (fun s => set_count (u32 (m_tableCount s + 1)) s);
          ret false
      end
  end.

(** *** Remove *)

(** What [ppN] points at: a slot of the bucket array or the [m_next]
    member of a node. *)
Inductive link := BucketSlot (index : Z) | NextOf (p : ptr).

Definition write_link (ppN : link) (v : option ptr) : M unit :=
  match ppN with
  | BucketSlot index => write_bucket index v
  | NextOf p => do n <- read_node p; write_node p (mkNode (m_key n) (m_val n) v)
  end.

(** The search of [Remove], [ppN] trailing [pN]. *)
Fixpoint remove_loop (fuel : nat) (k : Key) (ppN : link) (pN : option ptr)
    : M (link * option ptr) :=
  match pN with
  | None => ret (ppN, None)
  | Some p =>
      do n <- read_node p;
      if Equals k (m_key n) then ret (ppN, Some p)
      else match fuel with
           | O => lift Diverge
           | S fuel' => remove_loop fuel' k (NextOf p) (m_next n)
           end
  end.

Definition Remove (k : Key) : M bool :=
  do index <- GetIndexForKey k;
  do pN <- read_bucket index;
  do s <- get;
  do found <- remove_loop (walk_fuel s) k (BucketSlot index) pN;
  match found with
  | (ppN, Some p) =>
      do n <- read_node p;
      exec write_link ppN (m_next n);
      exec modify (fun s => set_count (u32 (m_tableCount s - 1)) s);
      exec free_node p;
      ret true
  | (_, None) => ret false
  end.

(** *** RemoveAll *)

(** [for (Node* pN = m_table[i]; pN != NULL; )]: the nodes of one chain
    are deleted, each after its link was read. *)
Fixpoint free_chain (fuel : nat) (pN : option ptr) : M unit :=
  match pN with
  | None => ret tt
  | Some p =>
      do n <- read_node p;
      let pNext := m_next n in
      exec free_node p;
      match fuel with
      | O => lift Diverge
      | S fuel' => free_chain fuel' pNext
      end
  end.

(** The loop over the buckets: [n] are left, [i] is next. *)
Fixpoint free_buckets (fuel : nat) (n : nat) (i : Z) : M unit :=
  match n with
  | O => ret tt
  | S n' =>
      do pN <- read_bucket i;
      exec free_chain fuel pN;
      free_buckets fuel n' (i + 1)
  end.

(** [RemoveAll]; [m_alloc->Free(m_table)] gives the bucket array back,
    which the assignment of [NULL] models. *)
Definition RemoveAll : M unit :=
  do s <- get;
  exec free_buckets (walk_fuel s) (Z.to_nat (prime (m_tableSizeInfo s))) 0;
  exec modify (set_table None);
  exec modify (set_sizeInfo PrimeInfo_zero);
  exec modify (set_count 0);
  modify (set_max 0).

(** *** Sequences of operations *)

(** The calls a user of the table can make. *)
Inductive op :=
| OpSet (k : Key) (v : Value)
| OpRemove (k : Key)
| OpLookup (k : Key) (pVal : option ptr)
| OpRemoveAll.

Definition run_op (o : op) : M unit :=
  match o with
  | OpSet k v => exec Set_ k v; ret tt
  | OpRemove k => exec Remove k; ret tt
  | OpLookup k pVal => exec Lookup k pVal; ret tt
  | OpRemoveAll => RemoveAll
  end.

Fixpoint run_ops (ops : list op) : M unit :=
  match ops with
  | [] => ret tt
  | o :: ops' => exec run_op o; run_ops ops'
  end.

(** *** The shape of a table

    Specification-level definitions: what the store and the bucket array
    of a table in use look like. *)

(** [chain h p l]: following [m_next] from [p] visits the nodes [l] in
    this order and then reaches [NULL]. *)
Fixpoint chain (h : gmap ptr Node) (p : option ptr) (l : list ptr) : Prop :=
  match l with
  | [] => p = None
  | q :: l' => p = Some q /\ exists n, h !! q = Some n /\ chain h (m_next n) l'
  end.

(** The first node of [l] whose key the policy equates with [k]. *)
Fixpoint first_match (h : gmap ptr Node) (k : Key) (l : list ptr) : option ptr :=
  match l with
  | [] => None
  | p :: l' =>
      match h !! p with
      | Some n => if Equals k (m_key n) then Some p else first_match h k l'
      | None => None
      end
  end.

(** The bucket of a key under a descriptor. *)
Definition index_of (info : PrimeInfo) (k : Key) : Z :=
  magicNumberRem (u32 (GetHashCode k)) info.

(** [table_inv s bs]: [bs] lists, bucket by bucket, the nodes of the
    chains of [s].  Every live node is on exactly one chain, the one of
    its key's bucket; no two nodes have keys the policy equates; the
    count is the number of nodes. *)
Record table_inv (s : State) (bs : list (list ptr)) : Prop := {
  inv_array :
    match m_table s with
    | Some arr =>
        Forall2 (chain (nodes s)) arr bs /\
        PrimeInfo_wf (m_tableSizeInfo s) /\ magic_valid (m_tableSizeInfo s)
    | None =>
        bs = [] /\ prime (m_tableSizeInfo s) = 0 /\ m_tableMax s = 0
    end;
  inv_length : length bs = Z.to_nat (prime (m_tableSizeInfo s));
  inv_nodup : NoDup (mjoin bs);
  inv_dom : forall p, p ∈ mjoin bs <-> is_Some (nodes s !! p);
  inv_index : forall i l p n,
    bs !! i = Some l -> p ∈ l -> nodes s !! p = Some n ->
    index_of (m_tableSizeInfo s) (m_key n) = Z.of_nat i;
  inv_keys : forall p q n m,
    nodes s !! p = Some n -> nodes s !! q = Some m ->
    Equals (m_key n) (m_key m) = true -> p = q;
  inv_count : m_tableCount s = u32 (Z.of_nat (size (nodes s)))
}.

(** A table in use: some listing of its chains satisfies the invariant. *)
Definition table_ok (s : State) : Prop := exists bs, table_inv s bs.

(** [k] is mapped by the node at [p]. *)
Definition maps_at (s : State) (k : Key) (p : ptr) : Prop :=
  exists n, nodes s !! p = Some n /\ Equals k (m_key n) = true.

(** [relinked h h']: the two stores hold the same node objects, each
    with the key and the value it had; only [m_next] members may differ. *)
Definition relinked (h h' : gmap ptr Node) : Prop :=
  forall q,
    match h !! q, h' !! q with
    | Some n, Some n' => m_key n' = m_key n /\ m_val n' = m_val n
    | None, None => True
    | _, _ => False
    end.

(** [moved info h tbl nb]: the array [tbl] under construction in
    [Reallocate]; [nb] lists the chains it heads so far, each node in the
    bucket its key has under [info]. *)
Record moved (info : PrimeInfo) (h : gmap ptr Node)
    (tbl : list (option ptr)) (nb : list (list ptr)) : Prop := {
  mv_chains : Forall2 (chain h) tbl nb;
  mv_length : length tbl = Z.to_nat (prime info);
  mv_index : forall i c q n,
    nb !! i = Some c -> q ∈ c -> h !! q = Some n ->
    index_of info (m_key n) = Z.of_nat i
}.

(** The threshold [Reallocate] stores with the descriptor [info]. *)
Definition new_max (info : PrimeInfo) : Z :=
  u32 (u32 (prime info * s_density_factor_numerator) / s_density_factor_denominator).

(** [grown s s']: what a growth may change: the links, the bucket
    array, its descriptor and the threshold. *)
Definition grown (s s' : State) : Prop :=
  relinked (nodes s) (nodes s') /\
  m_table s' <> None /\
  m_tableCount s' = m_tableCount s /\
  cells s' = cells s.

(** The state [Set] leaves when the key is mapped by the node at [p]. *)
Definition Set_found (s : State) (p : ptr) (n : Node) (v : Value) : State :=
  set_nodes (<[p := mkNode (m_key n) v (m_next n)]> (nodes s)) s.

(** The state [Set] leaves when it links the new node at [p] before the
    head [hd] of bucket [j] of the array [arr]. *)
Definition Set_new (s : State) (k : Key) (v : Value) (p : ptr)
    (j : nat) (hd : option ptr) (arr : list (option ptr)) : State :=
  set_count (u32 (m_tableCount s + 1))
    (set_table (Some (<[j := Some p]> arr))
       (set_nodes (<[p := mkNode k v hd]> (nodes s)) s)).

(** The pair the search of [Remove] ends with on the chain [l]. *)
Fixpoint trail (h : gmap ptr Node) (k : Key) (ppN : link)
    (l : list ptr) : link * option ptr :=
  match l with
  | [] => (ppN, None)
  | p :: l' =>
      match h !! p with
      | Some n => if Equals k (m_key n) then (ppN, Some p)
                  else trail h k (NextOf p) l'
      | None => (ppN, None)
      end
  end.

(** The state [Remove] leaves: the node at [p] freed, the links as in
    [h1], [hd'] heading bucket [j]. *)
Definition Removed (s : State) (p : ptr) (h1 : gmap ptr Node) (j : nat)
    (hd' : option ptr) (arr : list (option ptr)) : State :=
  mkState (delete p h1) (Some (<[j := hd']> arr)) (m_tableSizeInfo s)
          (u32 (m_tableCount s - 1)) (m_tableMax s) (cells s).

(** *** The table as a finite map

    What a sequence of calls leaves mapped, as a function from keys to
    values.  [Equals k' k] is the test the searches make between the key
    [k'] they look for and the key [k] a node stores. *)
Definition model_op (o : op) (f : Key -> option Value) : Key -> option Value :=
  match o with
  | OpSet k v => fun k' => if Equals k' k then Some v else f k'
  | OpRemove k => fun k' => if Equals k' k then None else f k'
  | OpLookup _ _ => f
  | OpRemoveAll => fun _ => None
  end.

Definition model_of (ops : list op) : Key -> option Value :=
  fold_left (fun f o => model_op o f) ops (fun _ => None).

(** [agrees s f]: the nodes of [s] hold the mapping [f], and nothing
    else. *)
Definition agrees (s : State) (f : Key -> option Value) : Prop :=
  forall k,
    match f k with
    | Some v => exists p n, nodes s !! p = Some n /\
                            Equals k (m_key n) = true /\ m_val n = v
    | None => forall p, ~ maps_at s k p
    end.

(** [growth_makes_room]: whenever [Grow] goes on to [Reallocate], the
    threshold that comes with the bucket array it gets is above the
    count. *)
Definition growth_makes_room : Prop :=
  forall count info,
    is_u32 count ->
    (Grow_floored count <? count) = false ->
    NextPrime (Grow_floored count) = Ok info ->
    count < new_max info.

(** The requirements on the key policy: [Equals] is an equivalence and
    keys it equates have the same hash code. *)
Class KeyFuncsLaws : Prop := {
  Equals_refl : forall a, Equals a a = true;
  Equals_sym : forall a b, Equals a b = true -> Equals b a = true;
  Equals_trans : forall a b c,
    Equals a b = true -> Equals b c = true -> Equals a c = true;
  Equals_hash : forall a b, Equals a b = true -> GetHashCode a = GetHashCode b
}.

(** What the operations expect of the prime table: 27 entries, each
    with constants valid for its prime. *)
Class PrimeTableLaws : Prop := {
  primeInfo_length : length primeInfo = 27%nat;
  primeInfo_valid : Forall (fun p => PrimeInfo_wf p /\ magic_valid p) primeInfo
}.

(** What they expect of the allocator: a new node does not overlap a
    live one. *)
Class AllocatorLaws : Prop := {
  Alloc_fresh : forall h p, Alloc h = Some p -> h !! p = None
}.

End Table.

Arguments Node : clear implicits.
Arguments State : clear implicits.
Arguments op : clear implicits.

(** ** An instantiation: integer keys and values

    The behavior of the spec's scenario (growth 3/2, density 3/4, at
    least 7 buckets), a table of 27 primes, each about twice the one
    before, with 32-bit magic numbers, keys hashed by their low 32 bits,
    and an allocator that never fails.  The theorems do not depend on
    this instantiation; it gives them concrete instances. *)

Module Sample.

#[export] Instance ZKeyFuncs : KeyFuncs Z :=
  {| Equals := Z.eqb; GetHashCode := fun k => k |}.

#[export] Instance DefaultBehavior : Behavior :=
  {| s_growth_factor_numerator := 3;
     s_growth_factor_denominator := 2;
     s_density_factor_numerator := 3;
     s_density_factor_denominator := 4;
     s_minimum_allocation := 7 |}.

#[export] Instance FreshAllocator : IAllocator (Node Z Z) :=
  {| Alloc := fun live => Some (fresh (dom live));
     ArrayAlloc := fun _ => true |}.

Definition primeInfo : list PrimeInfo :=
  [ mkPrimeInfo 9         0x38e38e39 1;
    mkPrimeInfo 23        0xb21642c9 4;
    mkPrimeInfo 59        0x22b63cbf 3;
    mkPrimeInfo 131       0xfa232cf3 7;
    mkPrimeInfo 239       0x891ac73b 7;
    mkPrimeInfo 433       0x975a751  4;
    mkPrimeInfo 761       0x561e46a5 8;
    mkPrimeInfo 1399      0xbb612aa3 10;
    mkPrimeInfo 2473      0x6a009f01 10;
    mkPrimeInfo 4327      0xf2555049 12;
    mkPrimeInfo 7499      0x45ea155f 11;
    mkPrimeInfo 12973     0x1434f6d3 10;
    mkPrimeInfo 22433     0x2ebe18db 12;
    mkPrimeInfo 46559     0xb42bebd5 15;
    mkPrimeInfo 96581     0xadb61b1b 16;
    mkPrimeInfo 200341    0x29df2461 15;
    mkPrimeInfo 415517    0xa181c46d 18;
    mkPrimeInfo 861719    0x4de0bde5 18;
    mkPrimeInfo 1787021   0x9636c46f 20;
    mkPrimeInfo 3705617   0x4870adc1 20;
    mkPrimeInfo 7684087   0x8bbc5b83 22;
    mkPrimeInfo 15933877  0x86c65361 23;
    mkPrimeInfo 33040633  0x40fec79b 23;
    mkPrimeInfo 68513161  0x7d605cd1 25;
    mkPrimeInfo 142069021 0xf1da390b 27;
    mkPrimeInfo 294594427 0x74a2507d 27;
    mkPrimeInfo 733045421 0x5dbec447 28 ].

(** A second behavior, for the size computation of [Grow]: growth 2/1
    and density 4/8. *)
Definition DoublingBehavior : Behavior :=
  {| s_growth_factor_numerator := 2;
     s_growth_factor_denominator := 1;
     s_density_factor_numerator := 4;
     s_density_factor_denominator := 8;
     s_minimum_allocation := 7 |}.

(** An allocator with room for two nodes; every array is granted. *)
Definition TwoNodeAllocator : IAllocator (Node Z Z) :=
  {| Alloc := fun live =>
       if decide (size live < 2)%nat then Some (fresh (dom live)) else None;
     ArrayAlloc := fun _ => true |}.

(** Six insertions fill the first bucket array (9 buckets) up to its
    threshold; the next [Set] grows the table. *)
Definition six_sets : list (op Z Z) :=
  [OpSet 1 10; OpSet 2 20; OpSet 3 30; OpSet 4 40; OpSet 5 50; OpSet 6 60].

(** Keys 1 and 10 share a bucket of the first array. *)
Definition mixed_ops : list (op Z Z) :=
  [OpSet 1 10; OpSet 10 100; OpSet 1 11; OpRemove 10].

(** The table after the operations [ops] on a new table. *)
Definition after (ops : list (op Z Z)) : State Z Z :=
  (run_ops primeInfo ops (New ∅)).1.

(** The members of a table object whose count and threshold are [n];
    [Grow] computes its size from the count alone. *)
Definition counted (n : Z) : State Z Z :=
  mkState ∅ None PrimeInfo_zero n n ∅.

End Sample.

(** * Proofs *)

(** ** Machine integers and magic-number division *)

Lemma u32_range x : 0 <= u32 x < 2 ^ 32.
Proof. unfold u32. apply Z.mod_pos_bound. lia. Qed.

Lemma u32_id x : is_u32 x -> u32 x = x.
Proof. unfold is_u32, u32. intros H. apply Z.mod_small. exact H. Qed.

Lemma magic_check_wf p : magic_check p = true -> PrimeInfo_wf p.
Proof.
  unfold magic_check. intros H.
  repeat (apply andb_prop in H; destruct H as [H ?]).
  split; lia.
Qed.

Lemma magic_check_valid p : magic_check p = true -> magic_valid p.
Proof.
  unfold magic_check. intros H n [Hn0 Hn].
  repeat (apply andb_prop in H; destruct H as [H ?]).
  set (N := 2 ^ (32 + shift p)) in *.
  assert (HN : N = 2 ^ 32 * 2 ^ shift p)
    by (unfold N; rewrite Z.pow_add_r; lia).
  assert (Hs : 0 < 2 ^ shift p) by (apply Z.pow_pos_nonneg; lia).
  assert (Hp : 0 < prime p) by lia.
  pose proof (Z.div_mod n (prime p) ltac:(lia)) as Hdm.
  pose proof (Z.mod_pos_bound n (prime p) Hp) as Hr.
  set (q := n / prime p) in *. set (r := n mod prime p) in *.
  set (e := magic p * prime p - N).
  assert (He : 0 <= e <= 2 ^ shift p) by (unfold e; lia).
  assert (Hne : n * e < N) by nia.
  symmetry. apply Z.div_unique_pos with (r := n * magic p - q * N); [|lia].
  assert (Hmul : n * magic p * prime p = n * N + n * e) by (unfold e; lia).
  split.
  - assert (q * N * prime p <= n * magic p * prime p) by nia. nia.
  - assert (n * magic p * prime p < (q + 1) * N * prime p) by nia. nia.
Qed.

Lemma magicNumberDivide_div (p : PrimeInfo) (n : Z) :
  PrimeInfo_wf p -> magic_valid p -> is_u32 n ->
  magicNumberDivide n p = n / prime p.
Proof.
  intros [Hp Hm Hs] Hv [Hn0 Hn1].
  assert (Hq : 0 <= n / prime p <= n).
  { split; [apply Z.div_pos; lia|]. apply Z.div_le_upper_bound; nia. }
  unfold magicNumberDivide, u64.
  assert (H64 : (2:Z) ^ 64 = 2 ^ 32 * 2 ^ 32) by reflexivity.
  rewrite (Z.mod_small n), (Z.mod_small (magic p)) by lia.
  rewrite (Z.mod_small (n * magic p)) by nia.
  rewrite Z.shiftr_div_pow2 by lia.
  rewrite Hv by (split; lia).
  apply u32_id. split; lia.
Qed.

Lemma magicNumberRem_mod (p : PrimeInfo) (n : Z) :
  PrimeInfo_wf p -> magic_valid p -> is_u32 n ->
  magicNumberRem n p = n mod prime p.
Proof.
  intros Hwf Hv Hn. unfold magicNumberRem.
  rewrite (magicNumberDivide_div p n Hwf Hv Hn).
  destruct Hwf as [Hp _ _]. destruct Hn as [Hn0 Hn1].
  pose proof (Z.div_mod n (prime p) ltac:(lia)) as Hdm.
  pose proof (Z.mod_pos_bound n (prime p) ltac:(lia)) as Hr.
  assert (Hq : 0 <= n / prime p) by (apply Z.div_pos; lia).
  rewrite (u32_id (n / prime p * prime p)) by (split; nia).
  rewrite u32_id by (split; nia). lia.
Qed.

(** C4.  For a descriptor whose fields are [unsigned] and whose magic
    and shift are valid for its prime, and for every 32-bit numerator,
    [magicNumberDivide] is the quotient by the prime and [magicNumberRem]
    the remainder: the product has 64 bits and does not wrap, the
    quotient fits [unsigned], and neither the product of quotient and
    prime nor the subtraction wraps. *)
Theorem magicNumber_correct (p : PrimeInfo) (n : Z) :
  PrimeInfo_wf p -> magic_valid p -> is_u32 n ->
  magicNumberDivide n p = Z.shiftr (n * magic p) (32 + shift p) /\
  magicNumberDivide n p = n / prime p /\
  magicNumberRem n p = n - magicNumberDivide n p * prime p /\
  magicNumberRem n p = n mod prime p.
Proof.
  intros Hwf Hv Hn.
  pose proof (magicNumberDivide_div p n Hwf Hv Hn) as Hd.
  pose proof (magicNumberRem_mod p n Hwf Hv Hn) as Hr.
  split; [|split; [done|split; [|done]]].
  - rewrite Hd, <- (Hv n Hn). rewrite Z.shiftr_div_pow2; [done|].
    destruct Hwf as [_ _ Hs]. lia.
  - rewrite Hr, Hd. destruct Hwf as [Hp _ _].
    pose proof (Z.div_mod n (prime p) ltac:(lia)). lia.
Qed.

Section Proofs.
Context {Key Value : Type} {KF : KeyFuncs Key} {BH : Behavior}
        {IA : IAllocator (Node Key Value)}.
Variable primeInfo : list PrimeInfo.

Implicit Types (s : State Key Value) (h : gmap ptr (Node Key Value))
  (l : list ptr) (bs : list (list ptr)) (k : Key) (p q : ptr).

(** *** Chains *)

Lemma chain_frame h h' hd l :
  chain h hd l ->
  (forall q n, q ∈ l -> h !! q = Some n ->
     exists n', h' !! q = Some n' /\ m_next n' = m_next n) ->
  chain h' hd l.
Proof.
  revert hd. induction l as [|q l IH]; intros hd; simpl; [done|].
  intros [-> (n & Hq & Hc)] Hfr. split; [done|].
  destruct (Hfr q n) as (n' & Hq' & Hn); [left | done |].
  exists n'. split; [done|]. rewrite Hn. apply IH; [done|].
  intros q' m Hin. apply Hfr. by right.
Qed.

Lemma chain_same h h' hd l :
  chain h hd l -> (forall q, q ∈ l -> h' !! q = h !! q) -> chain h' hd l.
Proof.
  intros Hc Hs. eapply chain_frame; [done|].
  intros q n Hin Hq. exists n. by rewrite Hs.
Qed.

Lemma chain_live h hd l q : chain h hd l -> q ∈ l -> is_Some (h !! q).
Proof.
  revert hd. induction l as [|r l IH]; intros hd; simpl.
  - intros _ Hin. by apply elem_of_nil in Hin.
  - intros [-> (n & Hr & Hc)] Hin. apply elem_of_cons in Hin as [->|Hin]; eauto.
Qed.

Lemma chain_app h hd l1 q l2 :
  chain h hd (l1 ++ q :: l2) ->
  exists n, h !! q = Some n /\ chain h (m_next n) l2.
Proof.
  revert hd. induction l1 as [|r l1 IH]; intros hd; simpl.
  - intros [-> (n & Hr & Hc)]. eauto.
  - intros [-> (n & Hr & Hc)]. eauto.
Qed.

(** *** The search loop *)

Lemma find_loop_chain fuel k hd l s :
  chain (nodes s) hd l -> (length l <= fuel)%nat ->
  find_loop fuel k hd s = (s, Ok (first_match (nodes s) k l)).
Proof.
  revert fuel hd. induction l as [|q l IH]; intros fuel hd; simpl.
  - intros -> _. by destruct fuel.
  - intros [-> (n & Hq & Hc)] Hlen.
    destruct fuel as [|fuel]; [lia|]. simpl.
    unfold bind, read_node. rewrite Hq.
    destruct (Equals k (m_key n)); [done|].
    apply IH; [done | lia].
Qed.

Lemma first_match_Some h k l p :
  first_match h k l = Some p ->
  p ∈ l /\ exists n, h !! p = Some n /\ Equals k (m_key n) = true.
Proof.
  induction l as [|q l IH]; simpl; [done|].
  destruct (h !! q) as [n|] eqn:Hq; [|done].
  destruct (Equals k (m_key n)) eqn:He.
  - intros [= <-]. split; [left | eauto].
  - intros Hf. destruct (IH Hf) as [Hin Hn]. split; [by right | done].
Qed.

Lemma first_match_None h k l q n :
  first_match h k l = None -> (forall r, r ∈ l -> is_Some (h !! r)) ->
  q ∈ l -> h !! q = Some n -> Equals k (m_key n) = false.
Proof.
  induction l as [|r l IH]; simpl.
  - intros _ _ Hin. by apply elem_of_nil in Hin.
  - intros Hf Hlive Hin Hq.
    destruct (Hlive r) as [m Hr]; [left|]. rewrite Hr in Hf.
    destruct (Equals k (m_key m)) eqn:He; [done|].
    apply elem_of_cons in Hin as [->|Hin].
    + by replace n with m by congruence.
    + apply IH; [done| |done|done]. intros r' Hr'. apply Hlive. by right.
Qed.

(** *** Lists of chains *)

Lemma join_lookup bs i l :
  bs !! i = Some l ->
  mjoin bs = mjoin (take i bs) ++ l ++ mjoin (drop (S i) bs).
Proof.
  intros Hi. rewrite <- (take_drop_middle bs i l Hi) at 1.
  by rewrite join_app.
Qed.

Lemma join_insert bs i l' :
  (i < length bs)%nat ->
  mjoin (<[i:=l']> bs) = mjoin (take i bs) ++ l' ++ mjoin (drop (S i) bs).
Proof.
  intros Hi. rewrite insert_take_drop by done. by rewrite join_app.
Qed.

Lemma join_insert_perm bs i l l' :
  bs !! i = Some l ->
  exists rest, mjoin bs ≡ₚ l ++ rest /\ mjoin (<[i:=l']> bs) ≡ₚ l' ++ rest.
Proof.
  intros Hi. exists (mjoin (take i bs) ++ mjoin (drop (S i) bs)).
  rewrite (join_lookup bs i l Hi).
  rewrite join_insert by (by eapply lookup_lt_Some).
  split; by rewrite Permutation_app_swap_app.
Qed.

Lemma elem_of_join_lookup bs i l p : bs !! i = Some l -> p ∈ l -> p ∈ mjoin bs.
Proof.
  intros Hi Hp. apply list_elem_of_join. exists l. split; [done|].
  by eapply list_elem_of_lookup_2.
Qed.

(** *** Consequences of the invariant *)

Lemma inv_size s bs : table_inv s bs -> size (nodes s) = length (mjoin bs).
Proof.
  intros Hinv. rewrite <- size_dom.
  unfold size, set_size. simpl.
  apply Permutation_length. apply NoDup_Permutation.
  - apply NoDup_elements.
  - apply (inv_nodup _ _ Hinv).
  - intros p. rewrite elem_of_elements, elem_of_dom. symmetry.
    apply (inv_dom _ _ Hinv).
Qed.

Lemma inv_chain_length s bs i l :
  table_inv s bs -> bs !! i = Some l -> (length l <= size (nodes s))%nat.
Proof.
  intros Hinv Hi. rewrite (inv_size s bs Hinv), (join_lookup bs i l Hi).
  rewrite !length_app. lia.
Qed.

Lemma inv_bucket s bs arr i hd :
  table_inv s bs -> m_table s = Some arr -> arr !! i = Some hd ->
  exists l, bs !! i = Some l /\ chain (nodes s) hd l.
Proof.
  intros Hinv Harr Hi. pose proof (inv_array _ _ Hinv) as Ha.
  rewrite Harr in Ha. destruct Ha as (HF & _).
  destruct (Forall2_lookup_l _ _ _ _ _ HF Hi) as (l & Hl & Hc). eauto.
Qed.

Lemma index_of_range info k :
  PrimeInfo_wf info -> magic_valid info ->
  index_of info k = u32 (GetHashCode k) mod prime info /\
  0 <= index_of info k < prime info.
Proof.
  intros Hwf Hv. unfold index_of.
  rewrite (magicNumberRem_mod info (u32 (GetHashCode k)) Hwf Hv (u32_range _)).
  split; [done|]. apply Z.mod_pos_bound. apply Hwf.
Qed.

(** *** FindNode and Lookup *)

Context {KL : @KeyFuncsLaws Key KF}.

Lemma index_of_Equals info a b :
  Equals a b = true -> index_of info a = index_of info b.
Proof. intros He. unfold index_of. by rewrite (Equals_hash a b He). Qed.

Lemma inv_no_array s bs p :
  table_inv s bs -> m_table s = None -> nodes s !! p = None.
Proof.
  intros Hinv Hn. pose proof (inv_array _ _ Hinv) as Ha. rewrite Hn in Ha.
  destruct Ha as (-> & _). apply eq_None_not_Some.
  rewrite <- (inv_dom _ _ Hinv). simpl. apply not_elem_of_nil.
Qed.

Lemma inv_array_length s bs arr :
  table_inv s bs -> m_table s = Some arr ->
  length arr = Z.to_nat (prime (m_tableSizeInfo s)).
Proof.
  intros Hinv Harr. pose proof (inv_array _ _ Hinv) as Ha. rewrite Harr in Ha.
  destruct Ha as (HF & _). rewrite (Forall2_length _ _ _ HF).
  apply (inv_length _ _ Hinv).
Qed.

Lemma inv_read_bucket s bs arr k :
  table_inv s bs -> m_table s = Some arr ->
  exists hd l,
    arr !! Z.to_nat (index_of (m_tableSizeInfo s) k) = Some hd /\
    bs !! Z.to_nat (index_of (m_tableSizeInfo s) k) = Some l /\
    chain (nodes s) hd l.
Proof.
  intros Hinv Harr. pose proof (inv_array _ _ Hinv) as Ha. rewrite Harr in Ha.
  destruct Ha as (HF & Hwf & Hv).
  destruct (index_of_range (m_tableSizeInfo s) k Hwf Hv) as [_ Hr].
  destruct (lookup_lt_is_Some_2 arr (Z.to_nat (index_of (m_tableSizeInfo s) k)))
    as [hd Hhd].
  { rewrite (inv_array_length s bs arr Hinv Harr). lia. }
  destruct (inv_bucket s bs arr _ hd Hinv Harr Hhd) as (l & Hl & Hc). eauto.
Qed.

(** In a table that satisfies the invariant the node of a key, if any,
    is on the chain of the key's bucket, and it is the first match. *)
Lemma first_match_maps_at s bs k l p :
  table_inv s bs ->
  bs !! Z.to_nat (index_of (m_tableSizeInfo s) k) = Some l ->
  m_table s <> None ->
  first_match (nodes s) k l = Some p <-> maps_at s k p.
Proof.
  intros Hinv Hl Hsome. split.
  - intros Hf. apply first_match_Some in Hf as [_ Hn]. exact Hn.
  - intros (n & Hp & He).
    assert (Hin : p ∈ mjoin bs) by (apply (inv_dom _ _ Hinv); eauto).
    apply list_elem_of_join in Hin as (l' & Hpl' & Hl').
    apply list_elem_of_lookup_1 in Hl' as [j Hj].
    pose proof (inv_index _ _ Hinv j l' p n Hj Hpl' Hp) as Hidx.
    rewrite <- (index_of_Equals _ k (m_key n) He) in Hidx.
    rewrite Hidx, Nat2Z.id in Hl. assert (l' = l) as -> by congruence.
    destruct (first_match (nodes s) k l) as [p'|] eqn:Hf.
    + destruct (first_match_Some _ _ _ _ Hf) as [_ (n' & Hp' & He')].
      f_equal. apply (inv_keys _ _ Hinv p' p n' n Hp' Hp).
      eapply Equals_trans; [apply Equals_sym; exact He' | exact He].
    + assert (Equals k (m_key n) = false); [|congruence].
      eapply (first_match_None _ _ l p n Hf); [|done|done].
      intros r Hr. apply (inv_dom _ _ Hinv). by eapply elem_of_join_lookup.
Qed.

Lemma FindNode_spec s bs k :
  table_inv s bs ->
  exists o, FindNode k s = (s, Ok o) /\ forall p, o = Some p <-> maps_at s k p.
Proof.
  intros Hinv. unfold FindNode, bind, get.
  pose proof (inv_array _ _ Hinv) as Ha.
  destruct (m_table s) as [arr|] eqn:Harr.
  - destruct Ha as (HF & Hwf & Hv).
    destruct (Z.eqb_spec (prime (m_tableSizeInfo s)) 0) as [H0|_].
    { destruct Hwf. lia. }
    destruct (inv_read_bucket s bs arr k Hinv Harr) as (hd & l & Hhd & Hl & Hc).
    unfold GetIndexForKey, bind, get, ret, read_bucket. rewrite Harr.
    fold (index_of (m_tableSizeInfo s) k). rewrite Hhd.
    exists (first_match (nodes s) k l). split.
    + destruct hd as [q|].
      * apply find_loop_chain; [done|]. by eapply inv_chain_length.
      * destruct l; [done|]. by destruct Hc.
    + intros p. apply (first_match_maps_at s bs); [done|done|]. by rewrite Harr.
  - destruct Ha as (-> & Hp & _). rewrite Hp. simpl. exists None.
    split; [done|]. intros p. split; [done|].
    intros (n & Hn & _). by rewrite (inv_no_array s [] p Hinv Harr) in Hn.
Qed.

Lemma maps_at_unique s bs k p q :
  table_inv s bs -> maps_at s k p -> maps_at s k q -> p = q.
Proof.
  intros Hinv (n & Hp & He) (m & Hq & He').
  apply (inv_keys _ _ Hinv p q n m Hp Hq).
  eapply Equals_trans; [apply Equals_sym; exact He | exact He'].
Qed.

(** *** Reallocate: the move loops *)

Lemma set_nodes_twice h h' s : set_nodes h' (set_nodes h s) = set_nodes h' s.
Proof. reflexivity. Qed.

Lemma set_nodes_same s : set_nodes (nodes s) s = s.
Proof. by destruct s. Qed.

Lemma relinked_refl h : relinked h h.
Proof. intros q. by destruct (h !! q). Qed.

Lemma relinked_trans h1 h2 h3 : relinked h1 h2 -> relinked h2 h3 -> relinked h1 h3.
Proof.
  intros H12 H23 q. specialize (H12 q). specialize (H23 q).
  destruct (h1 !! q), (h2 !! q), (h3 !! q); try done.
  destruct H12, H23. split; congruence.
Qed.

Lemma relinked_insert h p n n' :
  h !! p = Some n -> m_key n' = m_key n -> m_val n' = m_val n ->
  relinked h (<[p:=n']> h).
Proof.
  intros Hp Hk Hv q. destruct (decide (q = p)) as [->|Hne].
  - by rewrite Hp, lookup_insert_eq.
  - rewrite lookup_insert_ne by done. by destruct (h !! q).
Qed.

Lemma relinked_Some h h' q n :
  relinked h h' -> h !! q = Some n ->
  exists n', h' !! q = Some n' /\ m_key n' = m_key n /\ m_val n' = m_val n.
Proof.
  intros Hr Hq. specialize (Hr q). rewrite Hq in Hr.
  destruct (h' !! q) as [n'|]; [|done]. eauto.
Qed.

Lemma relinked_Some_inv h h' q n' :
  relinked h h' -> h' !! q = Some n' ->
  exists n, h !! q = Some n /\ m_key n' = m_key n /\ m_val n' = m_val n.
Proof.
  intros Hr Hq. specialize (Hr q). rewrite Hq in Hr.
  destruct (h !! q) as [n|]; [|done]. eauto.
Qed.

Lemma relinked_dom h h' : relinked h h' -> dom h' = dom h.
Proof.
  intros Hr. apply set_eq. intros q. rewrite !elem_of_dom.
  specialize (Hr q). by destruct (h !! q), (h' !! q).
Qed.

Lemma relinked_size h h' : relinked h h' -> size h' = size h.
Proof. intros Hr. by rewrite <- !size_dom, (relinked_dom h h' Hr). Qed.

Lemma join_insert_cons nb j c p :
  nb !! j = Some c -> mjoin (<[j:=p :: c]> nb) ≡ₚ p :: mjoin nb.
Proof.
  intros Hj. destruct (join_insert_perm nb j c (p :: c) Hj) as (rest & H1 & H2).
  by rewrite H2, H1.
Qed.

Lemma move_chain_spec info l :
  PrimeInfo_wf info -> magic_valid info ->
  forall fuel hd tbl nb s,
  moved info (nodes s) tbl nb ->
  chain (nodes s) hd l ->
  NoDup (l ++ mjoin nb) ->
  (length l <= fuel)%nat ->
  exists h' tbl' nb',
    move_chain fuel info hd tbl s = (set_nodes h' s, Ok tbl') /\
    moved info h' tbl' nb' /\
    mjoin nb' ≡ₚ l ++ mjoin nb /\
    relinked (nodes s) h' /\
    (forall q, q ∉ l -> h' !! q = nodes s !! q).
Proof.
  intros Hwf Hv. induction l as [|p l IH]; intros fuel hd tbl nb s Hmv Hc Hnd Hlen.
  - simpl in Hc. subst hd. exists (nodes s), tbl, nb.
    split; [destruct fuel; simpl; unfold ret; by rewrite set_nodes_same|].
    split; [done|]. split; [done|]. split; [apply relinked_refl | done].
  - simpl in Hc. destruct Hc as [-> (n & Hp & Hc)].
    destruct fuel as [|fuel]; [simpl in Hlen; lia|].
    simpl in Hlen.
    apply NoDup_cons in Hnd as [Hpnot Hnd].
    assert (Hpl : p ∉ l) by (intros ?; apply Hpnot, elem_of_app; by left).
    assert (Hpnb : p ∉ mjoin nb) by (intros ?; apply Hpnot, elem_of_app; by right).
    destruct (index_of_range info (m_key n) Hwf Hv) as [_ Hr].
    set (j := Z.to_nat (index_of info (m_key n))).
    destruct (lookup_lt_is_Some_2 tbl j) as [hd0 Hhd0].
    { rewrite (mv_length _ _ _ _ Hmv). unfold j. lia. }
    destruct (Forall2_lookup_l _ _ _ _ _ (mv_chains _ _ _ _ Hmv) Hhd0)
      as (c0 & Hc0 & Hchain0).
    set (n1 := mkNode (m_key n) (m_val n) hd0).
    set (h1 := <[p:=n1]> (nodes s)).
    assert (Hsame : forall c i, nb !! i = Some c ->
              forall q, q ∈ c -> h1 !! q = nodes s !! q).
    { intros c i Hi q Hq. unfold h1. apply lookup_insert_ne.
      intros <-. apply Hpnb. by eapply elem_of_join_lookup. }
    assert (Hmv1 : moved info h1 (<[j:=Some p]> tbl) (<[j:=p :: c0]> nb)).
    { split.
      - apply Forall2_insert.
        + apply Forall2_same_length_lookup_2.
          * apply (Forall2_length _ _ _ (mv_chains _ _ _ _ Hmv)).
          * intros i x y Hx Hy.
            pose proof (Forall2_lookup_lr _ _ _ _ _ _ (mv_chains _ _ _ _ Hmv) Hx Hy).
            eapply chain_same; [done|]. by apply (Hsame y i).
        + simpl. split; [done|]. exists n1. split; [apply lookup_insert_eq|].
          simpl. eapply chain_same; [done|]. by apply (Hsame c0 j).
      - rewrite length_insert. apply (mv_length _ _ _ _ Hmv).
      - intros i c q m Hi Hq Hm. destruct (decide (i = j)) as [->|Hne].
        + rewrite list_lookup_insert_eq in Hi by (by eapply lookup_lt_Some).
          injection Hi as <-. apply elem_of_cons in Hq as [->|Hq].
          * unfold h1 in Hm. rewrite lookup_insert_eq in Hm. injection Hm as <-.
            simpl. unfold j. lia.
          * rewrite (Hsame c0 j Hc0 q Hq) in Hm.
            by apply (mv_index _ _ _ _ Hmv j c0 q m).
        + rewrite list_lookup_insert_ne in Hi by done.
          rewrite (Hsame c i Hi q Hq) in Hm.
          by apply (mv_index _ _ _ _ Hmv i c q m). }
    assert (Hc1 : chain h1 (m_next n) l).
    { eapply chain_same; [done|]. intros q Hq. unfold h1.
      apply lookup_insert_ne. by intros <-. }
    assert (Hnd1 : NoDup (l ++ mjoin (<[j:=p :: c0]> nb))).
    { rewrite (join_insert_cons nb j c0 p Hc0).
      rewrite <- Permutation_middle. by apply NoDup_cons. }
    destruct (IH fuel (m_next n) (<[j:=Some p]> tbl) (<[j:=p :: c0]> nb)
                (set_nodes h1 s) Hmv1 Hc1 Hnd1 ltac:(lia))
      as (h' & tbl' & nb' & Hrun & Hmv' & Hperm & Hrel & Hout).
    exists h', tbl', nb'. split; [|split; [done|split; [|split]]].
    + cbn [move_chain]. unfold bind at 1. unfold read_node at 1. rewrite Hp.
      fold (index_of info (m_key n)). fold j. rewrite Hhd0.
      unfold bind at 1. unfold write_node at 1. rewrite Hp.
      fold n1. fold h1. exact Hrun.
    + rewrite Hperm, (join_insert_cons nb j c0 p Hc0).
      by rewrite <- Permutation_middle.
    + eapply relinked_trans; [|exact Hrel].
      by apply (relinked_insert (nodes s) p n n1).
    + intros q Hq. apply not_elem_of_cons in Hq as [Hqp Hql].
      rewrite (Hout q Hql). simpl. unfold h1. by apply lookup_insert_ne.
Qed.

Lemma move_buckets_spec info fuel cs :
  PrimeInfo_wf info -> magic_valid info ->
  forall heads i tbl nb s arr,
  m_table s = Some arr -> 0 <= i -> drop (Z.to_nat i) arr = heads ->
  Forall2 (chain (nodes s)) heads cs ->
  moved info (nodes s) tbl nb ->
  NoDup (mjoin cs ++ mjoin nb) ->
  (forall c, c ∈ cs -> length c <= fuel)%nat ->
  exists h' tbl' nb',
    move_buckets fuel info (length heads) i tbl s = (set_nodes h' s, Ok tbl') /\
    moved info h' tbl' nb' /\
    mjoin nb' ≡ₚ mjoin cs ++ mjoin nb /\
    relinked (nodes s) h'.
Proof.
  intros Hwf Hv. induction cs as [|c cs IH];
    intros heads i tbl nb s arr Harr Hi Hdrop HF Hmv Hnd Hfuel.
  - apply Forall2_nil_inv_r in HF as ->. exists (nodes s), tbl, nb.
    simpl. unfold ret. rewrite set_nodes_same.
    split; [done|]. split; [done|]. split; [done|]. apply relinked_refl.
  - apply Forall2_cons_inv_r in HF as (hd & heads' & Hc & HF & ->).
    simpl in Hnd. rewrite <- app_assoc in Hnd.
    pose proof Hnd as Hnd0.
    apply NoDup_app in Hnd as (Hndc & Hdisj & Hnd).
    assert (Hhd : arr !! Z.to_nat i = Some hd).
    { rewrite <- (Nat.add_0_r (Z.to_nat i)), <- lookup_drop. by rewrite Hdrop. }
    destruct (move_chain_spec info c Hwf Hv fuel hd tbl nb s Hmv Hc)
      as (h1 & tbl1 & nb1 & Hrun1 & Hmv1 & Hperm1 & Hrel1 & Hout1).
    { apply NoDup_app. split; [done|]. split; [|by apply NoDup_app in Hnd as (_ & _ & ?)].
      intros q Hq Hq'. apply (Hdisj q Hq), elem_of_app. by right. }
    { apply Hfuel. left. }
    destruct (IH heads' (i + 1) tbl1 nb1 (set_nodes h1 s) arr)
      as (h' & tbl' & nb' & Hrun & Hmv' & Hperm & Hrel); try done.
    + lia.
    + replace (Z.to_nat (i + 1)) with (S (Z.to_nat i)) by lia.
      rewrite (drop_S arr hd (Z.to_nat i) Hhd) in Hdrop. by injection Hdrop.
    + simpl. apply Forall2_same_length_lookup_2; [by eapply Forall2_length|].
      intros j x y Hx Hy.
      pose proof (Forall2_lookup_lr _ _ _ _ _ _ HF Hx Hy) as Hxy.
      eapply chain_same; [done|]. intros q Hq. apply Hout1.
      intros Hqc. apply (Hdisj q Hqc), elem_of_app. left.
      by eapply elem_of_join_lookup.
    + rewrite Hperm1. rewrite Permutation_app_swap_app. exact Hnd0.
    + intros c' Hc'. apply Hfuel. by right.
    + exists h', tbl', nb'. split; [|split; [done|split]].
      * cbn [move_buckets length]. unfold bind at 1. unfold read_bucket at 1.
        rewrite Harr, Hhd. unfold bind at 1. rewrite Hrun1. exact Hrun.
      * rewrite Hperm, Hperm1. simpl.
        rewrite <- app_assoc. by rewrite Permutation_app_swap_app.
      * eapply relinked_trans; [exact Hrel1 | exact Hrel].
Qed.

(** *** NextPrime *)

Lemma NextPrime_loop_Ok n i number info :
  NextPrime_loop primeInfo n i number = Ok info ->
  info ∈ primeInfo /\ number <= prime info.
Proof.
  revert i. induction n as [|n IH]; intros i; simpl; [done|].
  destruct (primeInfo !! i) as [info'|] eqn:Hq; [|done].
  destruct (Z.leb_spec number (prime info')) as [Hle|_].
  - intros [= <-]. split; [by eapply list_elem_of_lookup_2 | done].
  - apply IH.
Qed.

Lemma join_replicate_nil {A} n : mjoin (replicate n (@nil A)) = [].
Proof. induction n; simpl; [done|]. done. Qed.

Context {PL : PrimeTableLaws primeInfo}.

Lemma NextPrime_valid number info :
  NextPrime primeInfo number = Ok info -> PrimeInfo_wf info /\ magic_valid info.
Proof.
  intros H. apply NextPrime_loop_Ok in H as [Hin _].
  pose proof (primeInfo_valid primeInfo) as HF.
  rewrite Forall_forall in HF. by apply HF.
Qed.

(** *** Reallocate and Grow *)

Lemma moved_replicate info h :
  moved info h (replicate (Z.to_nat (prime info)) None)
               (replicate (Z.to_nat (prime info)) []).
Proof.
  split.
  - by apply Forall2_replicate.
  - apply length_replicate.
  - intros i c q n Hi Hq _. apply lookup_replicate in Hi as [-> _].
    by apply elem_of_nil in Hq.
Qed.

Lemma Reallocate_moves s bs info :
  table_inv s bs -> PrimeInfo_wf info -> magic_valid info ->
  exists h' tbl' nb',
    move_buckets (walk_fuel s) info (Z.to_nat (prime (m_tableSizeInfo s))) 0
      (replicate (Z.to_nat (prime info)) None) s = (set_nodes h' s, Ok tbl') /\
    moved info h' tbl' nb' /\
    mjoin nb' ≡ₚ mjoin bs /\
    relinked (nodes s) h'.
Proof.
  intros Hinv Hwf Hv. pose proof (inv_array _ _ Hinv) as Ha.
  destruct (m_table s) as [arr|] eqn:Harr.
  - destruct Ha as (HF & _ & _).
    destruct (move_buckets_spec info (walk_fuel s) bs Hwf Hv arr 0
                (replicate (Z.to_nat (prime info)) None)
                (replicate (Z.to_nat (prime info)) []) s arr)
      as (h' & tbl' & nb' & Hrun & Hmv & Hperm & Hrel); try done.
    + apply moved_replicate.
    + rewrite join_replicate_nil, app_nil_r. apply (inv_nodup _ _ Hinv).
    + intros c Hc. apply list_elem_of_lookup_1 in Hc as [i Hi].
      by eapply inv_chain_length.
    + exists h', tbl', nb'. rewrite join_replicate_nil, app_nil_r in Hperm.
      rewrite <- (inv_array_length s bs arr Hinv Harr). done.
  - destruct Ha as (-> & Hp & _). rewrite Hp. simpl.
    exists (nodes s), (replicate (Z.to_nat (prime info)) None),
           (replicate (Z.to_nat (prime info)) []).
    unfold ret. rewrite set_nodes_same. split; [done|].
    split; [apply moved_replicate|]. split; [by rewrite join_replicate_nil|].
    apply relinked_refl.
Qed.

Lemma Reallocate_spec s bs newTableSize info :
  table_inv s bs ->
  NextPrime primeInfo newTableSize = Ok info ->
  ArrayAlloc (prime info) = true ->
  exists s' bs',
    Reallocate primeInfo newTableSize s = (s', Ok tt) /\
    table_inv s' bs' /\
    relinked (nodes s) (nodes s') /\
    m_table s' <> None /\
    m_tableSizeInfo s' = info /\
    m_tableCount s' = m_tableCount s /\
    m_tableMax s' = new_max info /\
    cells s' = cells s.
Proof.
  intros Hinv Hnext Halloc.
  destruct (NextPrime_valid newTableSize info Hnext) as [Hwf Hv].
  destruct (Reallocate_moves s bs info Hinv Hwf Hv)
    as (h' & tbl' & nb' & Hrun & Hmv & Hperm & Hrel).
  exists (set_max (new_max info)
            (set_sizeInfo info (set_table (Some tbl') (set_nodes h' s)))), nb'.
  split.
  { unfold Reallocate. unfold bind at 1. unfold lift at 1. rewrite Hnext.
    unfold bind at 1. rewrite Halloc. unfold ret at 1.
    unfold bind at 1. unfold get at 1. unfold bind at 1. rewrite Hrun.
    reflexivity. }
  split; [|by repeat split].
  split; simpl.
  - split; [apply Hmv | done].
  - rewrite <- (Forall2_length _ _ _ (mv_chains _ _ _ _ Hmv)).
    apply (mv_length _ _ _ _ Hmv).
  - rewrite Hperm. apply (inv_nodup _ _ Hinv).
  - intros p. rewrite Hperm, (inv_dom _ _ Hinv p).
    rewrite <- !elem_of_dom. by rewrite (relinked_dom _ _ Hrel).
  - apply (mv_index _ _ _ _ Hmv).
  - intros p q n m Hp Hq He.
    destruct (relinked_Some_inv _ _ _ _ Hrel Hp) as (n0 & Hp0 & Hk & _).
    destruct (relinked_Some_inv _ _ _ _ Hrel Hq) as (m0 & Hq0 & Hk' & _).
    apply (inv_keys _ _ Hinv p q n0 m0 Hp0 Hq0). by rewrite <- Hk, <- Hk'.
  - rewrite (relinked_size _ _ Hrel). apply (inv_count _ _ Hinv).
Qed.

(** Failure leaves the state as it was. *)
Lemma move_chain_outcome fuel info hd tbl s s' :
  move_chain fuel info hd tbl s <> (s', NoMemory).
Proof.
  revert hd tbl s. induction fuel as [|fuel IH]; intros [p|] tbl s; simpl; try done.
  - unfold bind, read_node. destruct (nodes s !! p) as [n|] eqn:Hp; [|done].
    destruct (tbl !! _); [|done]. unfold write_node. by rewrite Hp.
  - unfold bind, read_node. destruct (nodes s !! p) as [n|] eqn:Hp; [|done].
    destruct (tbl !! _); [|done]. unfold write_node. rewrite Hp. apply IH.
Qed.

Lemma move_buckets_outcome fuel info n i tbl s s' :
  move_buckets fuel info n i tbl s <> (s', NoMemory).
Proof.
  revert i tbl s. induction n as [|n IH]; intros i tbl s; simpl; [done|].
  unfold bind. destruct (read_bucket i s) as [s1 [hd| | |]] eqn:Hr.
  - destruct (move_chain fuel info hd tbl s1) as [s2 [tbl'| | |]] eqn:Hm.
    + apply IH.
    + by apply move_chain_outcome in Hm.
    + done.
    + done.
  - unfold read_bucket in Hr. destruct (m_table s); [destruct (_ !! _)|]; done.
  - done.
  - done.
Qed.

Lemma NextPrime_loop_total n i number :
  (i + n <= length primeInfo)%nat ->
  (exists info, NextPrime_loop primeInfo n i number = Ok info) \/
  NextPrime_loop primeInfo n i number = NoMemory.
Proof.
  revert i. induction n as [|n IH]; intros i Hlen; simpl; [by right|].
  destruct (lookup_lt_is_Some_2 primeInfo i) as [info Hi]; [lia|].
  rewrite Hi. destruct (number <=? prime info); [left; eauto|].
  apply IH. lia.
Qed.

Lemma NextPrime_total number :
  (exists info, NextPrime primeInfo number = Ok info) \/
  NextPrime primeInfo number = NoMemory.
Proof.
  apply NextPrime_loop_total. rewrite (primeInfo_length primeInfo). simpl. lia.
Qed.

Lemma Reallocate_total s bs newTableSize :
  table_inv s bs ->
  Reallocate primeInfo newTableSize s = (s, NoMemory) \/
  exists s' bs', Reallocate primeInfo newTableSize s = (s', Ok tt) /\
                 table_inv s' bs' /\ grown s s'.
Proof.
  intros Hinv. destruct (NextPrime_total newTableSize) as [[info Hn]|Hn].
  - destruct (ArrayAlloc (prime info)) eqn:Ha.
    + destruct (Reallocate_spec s bs newTableSize info Hinv Hn Ha)
        as (s' & bs' & Hrun & Hinv' & Hrel & Hsome & _ & Hcnt & _ & Hcells).
      right. exists s', bs'. split; [done|]. split; [done|]. by split.
    + left. unfold Reallocate, bind, lift. by rewrite Hn, Ha.
  - left. unfold Reallocate, bind, lift. by rewrite Hn.
Qed.

(** [Grow] decides on the hook by the test [newSize < count] alone. *)
Lemma Grow_eq s :
  Grow primeInfo s =
  if Grow_floored (m_tableCount s) <? m_tableCount s then (s, NoMemory)
  else Reallocate primeInfo (Grow_floored (m_tableCount s)) s.
Proof.
  unfold Grow, bind, get, lift, ret.
  by destruct (Grow_floored (m_tableCount s) <? m_tableCount s).
Qed.

Lemma CheckGrowth_eq s :
  CheckGrowth primeInfo s =
  if m_tableCount s =? m_tableMax s then Grow primeInfo s else (s, Ok tt).
Proof.
  unfold CheckGrowth, bind, get, ret. by destruct (m_tableCount s =? m_tableMax s).
Qed.

Lemma Grow_total s bs :
  table_inv s bs ->
  Grow primeInfo s = (s, NoMemory) \/
  exists s' bs', Grow primeInfo s = (s', Ok tt) /\ table_inv s' bs' /\ grown s s'.
Proof.
  intros Hinv. rewrite Grow_eq.
  destruct (Grow_floored (m_tableCount s) <? m_tableCount s); [by left|].
  by apply (Reallocate_total s bs).
Qed.

Lemma inv_uninitialised s bs :
  table_inv s bs -> m_table s = None -> m_tableCount s = m_tableMax s.
Proof.
  intros Hinv Hn. rewrite (inv_count _ _ Hinv).
  pose proof (inv_array _ _ Hinv) as Ha. rewrite Hn in Ha.
  destruct Ha as (-> & _ & ->).
  rewrite (inv_size s [] Hinv). done.
Qed.

Lemma CheckGrowth_total s bs :
  table_inv s bs ->
  CheckGrowth primeInfo s = (s, NoMemory) \/
  exists s' bs', CheckGrowth primeInfo s = (s', Ok tt) /\
                 table_inv s' bs' /\ grown s s' /\
                 (m_tableCount s <> m_tableMax s -> s' = s /\ bs' = bs).
Proof.
  intros Hinv. rewrite CheckGrowth_eq.
  destruct (Z.eqb_spec (m_tableCount s) (m_tableMax s)) as [Heq|Hne].
  - destruct (Grow_total s bs Hinv) as [Hg|(s' & bs' & Hg & Hinv' & Hgr)].
    + by left.
    + right. exists s', bs'. split; [done|]. split; [done|]. split; [done|].
      intros Hne. by destruct Hne.
  - right. exists s, bs. split; [done|]. split; [done|]. split; [|done].
    split; [apply relinked_refl|]. split; [|done].
    intros Hn. by apply Hne, (inv_uninitialised s bs).
Qed.

(** *** Set *)

Lemma Set_after_growth s s1 bs1 arr hd l k v :
  CheckGrowth primeInfo s = (s1, Ok tt) ->
  table_inv s1 bs1 -> m_table s1 = Some arr ->
  arr !! Z.to_nat (index_of (m_tableSizeInfo s1) k) = Some hd ->
  bs1 !! Z.to_nat (index_of (m_tableSizeInfo s1) k) = Some l ->
  chain (nodes s1) hd l ->
  Set_ primeInfo k v s =
  match first_match (nodes s1) k l with
  | Some p =>
      match nodes s1 !! p with
      | Some n => (Set_found s1 p n v, Ok true)
      | None => (s1, Fault)
      end
  | None =>
      match Alloc (nodes s1) with
      | Some p =>
          (Set_new s1 k v p (Z.to_nat (index_of (m_tableSizeInfo s1) k)) hd arr,
           Ok false)
      | None => (s1, NoMemory)
      end
  end.
Proof.
  intros Hcg Hinv Harr Hhd Hl Hc.
  unfold Set_. unfold bind at 1. rewrite Hcg.
  unfold GetIndexForKey, bind, get, ret.
  fold (index_of (m_tableSizeInfo s1) k).
  unfold read_bucket at 1. rewrite Harr, Hhd.
  rewrite (find_loop_chain (walk_fuel s1) k hd l s1 Hc)
    by (by eapply inv_chain_length).
  destruct (first_match (nodes s1) k l) as [p|].
  - unfold read_node. destruct (nodes s1 !! p) as [n|] eqn:Hp; [|done].
    unfold write_node. by rewrite Hp.
  - unfold read_bucket. rewrite Harr, Hhd.
    destruct (Alloc (nodes s1)) as [p|]; [|done].
    unfold modify, write_bucket. simpl. rewrite Harr.
    destruct (decide _) as [|Hge]; [done|].
    exfalso. apply Hge. by eapply lookup_lt_Some.
Qed.

Lemma table_inv_Set_found s bs p n v :
  table_inv s bs -> nodes s !! p = Some n -> table_inv (Set_found s p n v) bs.
Proof.
  intros Hinv Hp.
  assert (Hlk : forall q m, (<[p:=mkNode (m_key n) v (m_next n)]> (nodes s)) !! q = Some m ->
            exists m0, nodes s !! q = Some m0 /\ m_key m = m_key m0 /\
                       m_next m = m_next m0).
  { intros q m. destruct (decide (q = p)) as [->|Hne].
    - rewrite lookup_insert_eq. intros [= <-]. eauto.
    - rewrite lookup_insert_ne by done. eauto. }
  assert (HSome : forall q, is_Some ((<[p:=mkNode (m_key n) v (m_next n)]> (nodes s)) !! q)
                   <-> is_Some (nodes s !! q)).
  { intros q. destruct (decide (q = p)) as [->|Hne].
    - rewrite lookup_insert_eq, Hp. split; eauto.
    - by rewrite lookup_insert_ne. }
  pose proof (inv_array _ _ Hinv) as Ha.
  split; simpl.
  - destruct (m_table s) as [arr|]; [|done]. destruct Ha as (HF & Hwf).
    split; [|done]. eapply Forall2_impl; [exact HF|].
    intros hd l Hc. eapply chain_frame; [exact Hc|].
    intros q m _ Hq. destruct (decide (q = p)) as [->|Hne].
    + rewrite lookup_insert_eq. replace m with n by congruence. eauto.
    + rewrite lookup_insert_ne by done. eauto.
  - apply (inv_length _ _ Hinv).
  - apply (inv_nodup _ _ Hinv).
  - intros q. rewrite HSome. apply (inv_dom _ _ Hinv).
  - intros i l q m Hi Hq Hm. destruct (Hlk q m Hm) as (m0 & Hm0 & -> & _).
    by apply (inv_index _ _ Hinv i l q m0).
  - intros q r m m' Hq Hr. destruct (Hlk q m Hq) as (m0 & Hm0 & -> & _).
    destruct (Hlk r m' Hr) as (m1 & Hm1 & -> & _).
    by apply (inv_keys _ _ Hinv).
  - rewrite map_size_insert_Some by eauto. apply (inv_count _ _ Hinv).
Qed.

Lemma u32_succ x : u32 (u32 x + 1) = u32 (x + 1).
Proof. unfold u32. by rewrite Z.add_mod_idemp_l. Qed.

Lemma u32_pred x : u32 (u32 x - 1) = u32 (x - 1).
Proof. unfold u32. by rewrite Zminus_mod_idemp_l. Qed.

Lemma table_inv_Set_new s bs arr k v p hd l :
  let j := Z.to_nat (index_of (m_tableSizeInfo s) k) in
  table_inv s bs -> m_table s = Some arr ->
  arr !! j = Some hd -> bs !! j = Some l ->
  (forall q, ~ maps_at s k q) ->
  nodes s !! p = None ->
  table_inv (Set_new s k v p j hd arr) (<[j := p :: l]> bs).
Proof.
  intros j Hinv Harr Hhd Hl Hmiss Hp.
  pose proof (inv_array _ _ Hinv) as Ha. rewrite Harr in Ha.
  destruct Ha as (HF & Hwf & Hv).
  assert (Hpnot : p ∉ mjoin bs).
  { intros Hin. apply (inv_dom _ _ Hinv) in Hin. rewrite Hp in Hin.
    by destruct Hin. }
  assert (Hsame : forall c i, bs !! i = Some c ->
            forall q, q ∈ c -> (<[p:=mkNode k v hd]> (nodes s)) !! q = nodes s !! q).
  { intros c i Hi q Hq. apply lookup_insert_ne.
    intros <-. apply Hpnot. by eapply elem_of_join_lookup. }
  split; simpl.
  - split; [|done]. apply Forall2_insert.
    + apply Forall2_same_length_lookup_2; [by eapply Forall2_length|].
      intros i x y Hx Hy. pose proof (Forall2_lookup_lr _ _ _ _ _ _ HF Hx Hy).
      eapply chain_same; [done|]. by apply (Hsame y i).
    + simpl. split; [done|]. eexists. split; [apply lookup_insert_eq|]. simpl.
      pose proof (Forall2_lookup_lr _ _ _ _ _ _ HF Hhd Hl).
      eapply chain_same; [done|]. by apply (Hsame l j).
  - rewrite length_insert. apply (inv_length _ _ Hinv).
  - rewrite (join_insert_cons bs j l p Hl). apply NoDup_cons.
    split; [done | apply (inv_nodup _ _ Hinv)].
  - intros q. rewrite (join_insert_cons bs j l p Hl).
    rewrite elem_of_cons, lookup_insert_is_Some, (inv_dom _ _ Hinv q).
    split; [intros [->|?]; [by left|]|intros [->|[_ ?]]; [by left|by right]].
    right. split; [|done]. intros <-. rewrite Hp in H. by destruct H.
  - intros i c q m Hi Hq Hm. destruct (decide (i = j)) as [->|Hne].
    + rewrite list_lookup_insert_eq in Hi by (by eapply lookup_lt_Some).
      injection Hi as <-. apply elem_of_cons in Hq as [->|Hq].
      * rewrite lookup_insert_eq in Hm. injection Hm as <-. simpl.
        destruct (index_of_range (m_tableSizeInfo s) k Hwf Hv) as [_ Hr].
        unfold j. lia.
      * rewrite (Hsame l j Hl q Hq) in Hm. by apply (inv_index _ _ Hinv j l q m).
    + rewrite list_lookup_insert_ne in Hi by done.
      rewrite (Hsame c i Hi q Hq) in Hm. by apply (inv_index _ _ Hinv i c q m).
  - intros q r m m' Hq Hr He.
    destruct (decide (q = p)) as [->|Hqp]; destruct (decide (r = p)) as [->|Hrp];
      [done| | |].
    + rewrite lookup_insert_eq in Hq. injection Hq as <-. simpl in He.
      rewrite lookup_insert_ne in Hr by done.
      destruct (Hmiss r). by exists m'.
    + rewrite lookup_insert_eq in Hr. injection Hr as <-. simpl in He.
      rewrite lookup_insert_ne in Hq by done.
      destruct (Hmiss q). exists m. split; [done|]. by apply Equals_sym.
    + rewrite lookup_insert_ne in Hq, Hr by done. by apply (inv_keys _ _ Hinv q r m m').
  - rewrite map_size_insert_None by done. rewrite (inv_count _ _ Hinv).
    rewrite u32_succ. f_equal. lia.
Qed.

Context {AL : @AllocatorLaws Key Value IA}.

Lemma Set_cases s bs k v :
  table_inv s bs ->
  (CheckGrowth primeInfo s = (s, NoMemory) /\ Set_ primeInfo k v s = (s, NoMemory)) \/
  exists s1 bs1 arr hd l,
    let j := Z.to_nat (index_of (m_tableSizeInfo s1) k) in
    CheckGrowth primeInfo s = (s1, Ok tt) /\
    table_inv s1 bs1 /\ grown s s1 /\
    (m_tableCount s <> m_tableMax s -> s1 = s /\ bs1 = bs) /\
    m_table s1 = Some arr /\ arr !! j = Some hd /\ bs1 !! j = Some l /\
    ((exists p n,
        maps_at s1 k p /\ nodes s1 !! p = Some n /\
        Set_ primeInfo k v s = (Set_found s1 p n v, Ok true) /\
        table_inv (Set_found s1 p n v) bs1) \/
     ((forall q, ~ maps_at s1 k q) /\
      match Alloc (nodes s1) with
      | Some p =>
          nodes s1 !! p = None /\
          Set_ primeInfo k v s = (Set_new s1 k v p j hd arr, Ok false) /\
          table_inv (Set_new s1 k v p j hd arr) (<[j := p :: l]> bs1)
      | None => Set_ primeInfo k v s = (s1, NoMemory)
      end)).
Proof.
  intros Hinv.
  destruct (CheckGrowth_total s bs Hinv) as [Hcg|(s1 & bs1 & Hcg & Hinv1 & Hgr & Hsame)].
  { left. split; [done|]. unfold Set_. unfold bind at 1. by rewrite Hcg. }
  right. destruct (m_table s1) as [arr|] eqn:Harr; [|by destruct Hgr as (_ & ? & _)].
  destruct (inv_read_bucket s1 bs1 arr k Hinv1 Harr) as (hd & l & Hhd & Hl & Hc).
  exists s1, bs1, arr, hd, l. cbv zeta.
  do 7 (split; [done|]).
  pose proof (Set_after_growth s s1 bs1 arr hd l k v Hcg Hinv1 Harr Hhd Hl Hc) as Hrun.
  assert (Hfm : forall p, first_match (nodes s1) k l = Some p <-> maps_at s1 k p).
  { intros p. apply (first_match_maps_at s1 bs1); [done|done|by rewrite Harr]. }
  destruct (first_match (nodes s1) k l) as [p|] eqn:Hf.
  - left. assert (Hm : maps_at s1 k p) by (by apply Hfm).
    pose proof Hm as (n & Hp & He). rewrite Hp in Hrun.
    exists p, n. split; [done|]. split; [done|]. split; [done|].
    by apply table_inv_Set_found.
  - right. assert (Hmiss : forall q, ~ maps_at s1 k q).
    { intros q Hq. by apply Hfm in Hq. }
    split; [done|]. destruct (Alloc (nodes s1)) as [p|] eqn:Hal; [|done].
    pose proof (Alloc_fresh _ _ Hal) as Hfresh.
    split; [done|]. split; [done|]. by apply table_inv_Set_new.
Qed.

(** *** Remove *)

Lemma remove_loop_chain fuel k pp hd l s :
  chain (nodes s) hd l -> (length l <= fuel)%nat ->
  remove_loop fuel k pp hd s = (s, Ok (trail (nodes s) k pp l)).
Proof.
  revert fuel pp hd. induction l as [|q l IH]; intros fuel pp hd; simpl.
  - intros -> _. by destruct fuel.
  - intros [-> (n & Hq & Hc)] Hlen.
    destruct fuel as [|fuel]; [lia|]. simpl.
    unfold bind, read_node. rewrite Hq.
    destruct (Equals k (m_key n)); [done|].
    apply IH; [done | lia].
Qed.

Lemma trail_first_match h k pp l : (trail h k pp l).2 = first_match h k l.
Proof.
  revert pp. induction l as [|q l IH]; intros pp; simpl; [done|].
  destruct (h !! q) as [n|]; [|done]. by destruct (Equals k (m_key n)).
Qed.

Lemma chain_delete h hd l p : chain h hd l -> p ∉ l -> chain (delete p h) hd l.
Proof.
  intros Hc Hp. eapply chain_same; [done|]. intros q Hq.
  apply lookup_delete_ne. by intros ->.
Qed.

Lemma trail_unlink h k l :
  forall pp hd ppN p n,
  chain h hd l -> NoDup l -> trail h k pp l = (ppN, Some p) -> h !! p = Some n ->
  exists l1 l2, l = l1 ++ p :: l2 /\
    ((l1 = [] /\ ppN = pp /\ chain (delete p h) (m_next n) l2) \/
     (exists r nr, ppN = NextOf r /\ r ∈ l1 /\ r <> p /\ h !! r = Some nr /\
        chain (delete p (<[r := mkNode (m_key nr) (m_val nr) (m_next n)]> h))
              hd (l1 ++ l2))).
Proof.
  induction l as [|q l IH]; intros pp hd ppN p n Hc Hnd Ht Hp; simpl in *; [done|].
  destruct Hc as [-> (nq & Hq & Hc)]. rewrite Hq in Ht.
  apply NoDup_cons in Hnd as [Hql Hnd].
  destruct (Equals k (m_key nq)) eqn:He.
  - injection Ht as <- <-. exists [], l. split; [done|]. left.
    split; [done|]. split; [done|].
    replace n with nq by congruence. by apply chain_delete.
  - destruct (IH (NextOf q) (m_next nq) ppN p n Hc Hnd Ht Hp)
      as (l1 & l2 & -> & Hcase).
    assert (Hqp : q <> p).
    { intros ->. apply Hql, elem_of_app. right. left. }
    exists (q :: l1), l2. split; [done|]. right.
    destruct Hcase as [(-> & -> & Hc2)|(r & nr & -> & Hr & Hrp & Hnr & Hc2)].
    + exists q, nq. split; [done|]. split; [left|]. split; [done|]. split; [done|].
      simpl. split; [done|]. eexists. split.
      { rewrite lookup_delete_ne by done. apply lookup_insert_eq. }
      simpl. eapply chain_same; [exact Hc2|]. intros q' Hq'.
      destruct (decide (q' = p)) as [->|Hne].
      * by rewrite !lookup_delete_eq.
      * rewrite !lookup_delete_ne by done. apply lookup_insert_ne.
        intros <-. apply Hql, elem_of_app. right. by right.
    + exists r, nr. split; [done|]. split; [by right|]. split; [done|]. split; [done|].
      simpl. split; [done|]. exists nq. split; [|done].
      rewrite lookup_delete_ne by done. rewrite lookup_insert_ne; [done|].
      intros ->. apply Hql, elem_of_app. by left.
Qed.

Lemma inv_disjoint s bs i j c c' q :
  table_inv s bs -> bs !! i = Some c -> bs !! j = Some c' ->
  q ∈ c -> q ∈ c' -> i = j.
Proof.
  intros Hinv Hi Hj Hq Hq'.
  assert (Hlive : is_Some (nodes s !! q)).
  { apply (inv_dom _ _ Hinv). by eapply elem_of_join_lookup. }
  destruct Hlive as [m Hm].
  pose proof (inv_index _ _ Hinv i c q m Hi Hq Hm).
  pose proof (inv_index _ _ Hinv j c' q m Hj Hq' Hm). lia.
Qed.

Lemma size_pos_lookup h p n : h !! p = Some n -> (0 < size h)%nat.
Proof.
  intros Hp. destruct (size h) eqn:Hs; [|lia].
  apply map_size_empty_inv in Hs. subst h. by rewrite lookup_empty in Hp.
Qed.

Lemma table_inv_unlink s bs arr j l1 p l2 n h1 hd' :
  table_inv s bs -> m_table s = Some arr ->
  bs !! j = Some (l1 ++ p :: l2) -> nodes s !! p = Some n ->
  relinked (nodes s) h1 ->
  (forall q, q ∉ l1 ++ p :: l2 -> h1 !! q = nodes s !! q) ->
  chain (delete p h1) hd' (l1 ++ l2) ->
  table_inv (Removed s p h1 j hd' arr) (<[j := l1 ++ l2]> bs).
Proof.
  intros Hinv Harr Hj Hp Hrel Hout Hc.
  pose proof (inv_array _ _ Hinv) as Ha. rewrite Harr in Ha.
  destruct Ha as (HF & Hwf & Hv).
  destruct (join_insert_perm bs j (l1 ++ p :: l2) (l1 ++ l2) Hj)
    as (rest & Hperm & Hperm').
  assert (HP : mjoin bs ≡ₚ p :: (l1 ++ l2) ++ rest).
  { rewrite Hperm, <- app_assoc. simpl.
    by rewrite <- Permutation_middle, app_assoc. }
  assert (Hnd : NoDup (p :: (l1 ++ l2) ++ rest)).
  { rewrite <- HP. apply (inv_nodup _ _ Hinv). }
  apply NoDup_cons in Hnd as [Hpnot Hnd].
  assert (Hin : forall q, q ∈ mjoin (<[j:=l1 ++ l2]> bs) <-> q ∈ mjoin bs /\ q <> p).
  { intros q. rewrite Hperm', HP, elem_of_cons.
    split.
    - intros Hq. split; [by right|]. by intros ->.
    - by intros [[->|Hq] Hne]. }
  assert (Hlk : forall q m, delete p h1 !! q = Some m ->
            q <> p /\ exists m0, nodes s !! q = Some m0 /\ m_key m = m_key m0).
  { intros q m Hq. apply lookup_delete_Some in Hq as [Hne Hq].
    split; [done|].
    destruct (relinked_Some_inv _ _ _ _ Hrel Hq) as (m0 & Hm0 & Hk & _). eauto. }
  split; simpl.
  - split; [|done]. apply Forall2_same_length_lookup_2.
    { rewrite !length_insert. by eapply Forall2_length. }
    intros i x y Hx Hy. destruct (decide (i = j)) as [->|Hne].
    + rewrite list_lookup_insert_eq in Hy by (by eapply lookup_lt_Some).
      rewrite list_lookup_insert_eq in Hx
        by (rewrite (Forall2_length _ _ _ HF); by eapply lookup_lt_Some).
      by injection Hx as <-; injection Hy as <-.
    + rewrite list_lookup_insert_ne in Hx by done.
      rewrite list_lookup_insert_ne in Hy by done.
      pose proof (Forall2_lookup_lr _ _ _ _ _ _ HF Hx Hy) as Hxy.
      eapply chain_same; [done|]. intros q Hq.
      assert (Hqj : q ∉ l1 ++ p :: l2).
      { intros Hq'. apply Hne. by eapply (inv_disjoint s bs i j y _ q). }
      rewrite lookup_delete_ne; [by apply Hout|].
      intros <-. apply Hqj, elem_of_app. right. left.
  - rewrite length_insert. apply (inv_length _ _ Hinv).
  - by rewrite Hperm'.
  - intros q. rewrite Hin, (inv_dom _ _ Hinv q), lookup_delete_is_Some.
    rewrite <- !elem_of_dom, (relinked_dom _ _ Hrel).
    split; intros [H1 H2]; split; congruence.
  - intros i c q m Hi Hq Hm. destruct (Hlk q m Hm) as (Hne & m0 & Hm0 & ->).
    destruct (decide (i = j)) as [->|Hij].
    + rewrite list_lookup_insert_eq in Hi by (by eapply lookup_lt_Some).
      injection Hi as <-. apply (inv_index _ _ Hinv j _ q m0 Hj); [|done].
      apply elem_of_app in Hq as [Hq|Hq]; apply elem_of_app; [by left|].
      right. by right.
    + rewrite list_lookup_insert_ne in Hi by done.
      by apply (inv_index _ _ Hinv i c q m0).
  - intros q r m m' Hq Hr. destruct (Hlk q m Hq) as (_ & m0 & Hm0 & ->).
    destruct (Hlk r m' Hr) as (_ & m1 & Hm1 & ->). by apply (inv_keys _ _ Hinv).
  - assert (Hp1 : is_Some (h1 !! p)).
    { destruct (relinked_Some _ _ _ _ Hrel Hp) as (? & ? & _). eauto. }
    rewrite map_size_delete_Some by done. rewrite (relinked_size _ _ Hrel).
    rewrite (inv_count _ _ Hinv), u32_pred. f_equal.
    pose proof (size_pos_lookup _ _ _ Hp). lia.
Qed.

Lemma inv_chain_NoDup s bs i l : table_inv s bs -> bs !! i = Some l -> NoDup l.
Proof.
  intros Hinv Hi. pose proof (inv_nodup _ _ Hinv) as Hnd.
  rewrite (join_lookup bs i l Hi) in Hnd.
  apply NoDup_app in Hnd as (_ & _ & Hnd). by apply NoDup_app in Hnd as (? & _).
Qed.

Lemma Remove_cases s bs arr k :
  table_inv s bs -> m_table s = Some arr ->
  ((forall q, ~ maps_at s k q) /\ Remove k s = (s, Ok false)) \/
  exists p n l1 l2 h1 hd',
    let j := Z.to_nat (index_of (m_tableSizeInfo s) k) in
    maps_at s k p /\ nodes s !! p = Some n /\
    bs !! j = Some (l1 ++ p :: l2) /\
    ((l1 = [] /\ h1 = nodes s /\ hd' = m_next n) \/
     (exists r nr, r ∈ l1 /\ r <> p /\ nodes s !! r = Some nr /\
        h1 = <[r := mkNode (m_key nr) (m_val nr) (m_next n)]> (nodes s) /\
        arr !! j = Some hd')) /\
    Remove k s = (Removed s p h1 j hd' arr, Ok true) /\
    table_inv (Removed s p h1 j hd' arr) (<[j := l1 ++ l2]> bs).
Proof.
  intros Hinv Harr.
  destruct (inv_read_bucket s bs arr k Hinv Harr) as (hd & l & Hhd & Hl & Hc).
  set (j := Z.to_nat (index_of (m_tableSizeInfo s) k)) in *.
  assert (Hfm : forall p, first_match (nodes s) k l = Some p <-> maps_at s k p).
  { intros p. apply (first_match_maps_at s bs); [done|done|by rewrite Harr]. }
  assert (Hrun : Remove k s =
    match trail (nodes s) k (BucketSlot (index_of (m_tableSizeInfo s) k)) l with
    | (ppN, Some p) =>
        bind (read_node p) (fun n =>
          bind (write_link ppN (m_next n)) (fun _ =>
            bind (modify (fun s => set_count (u32 (m_tableCount s - 1)) s)) (fun _ =>
              bind (free_node p) (fun _ => ret true)))) s
    | (_, None) => (s, Ok false)
    end).
  { unfold Remove. unfold bind at 1. unfold GetIndexForKey at 1.
    unfold bind at 1. unfold get at 1. unfold ret at 1.
    fold (index_of (m_tableSizeInfo s) k).
    unfold bind at 1. unfold read_bucket at 1. rewrite Harr. fold j. rewrite Hhd.
    unfold bind at 1. unfold get at 1. unfold bind at 1.
    rewrite (remove_loop_chain (walk_fuel s) k _ hd l s Hc)
      by (by eapply inv_chain_length).
    by destruct (trail _ _ _ _) as [ppN [p|]]. }
  pose proof (trail_first_match (nodes s) k
                (BucketSlot (index_of (m_tableSizeInfo s) k)) l) as Hsnd.
  destruct (trail (nodes s) k (BucketSlot (index_of (m_tableSizeInfo s) k)) l)
    as [ppN [p|]] eqn:Ht; simpl in Hsnd.
  - right. assert (Hm : maps_at s k p) by (by apply Hfm).
    pose proof Hm as (n & Hp & He).
    destruct (trail_unlink (nodes s) k l _ hd ppN p n Hc
                (inv_chain_NoDup s bs j l Hinv Hl) Ht Hp)
      as (l1 & l2 & -> & [(-> & -> & Hc2)|(r & nr & -> & Hr & Hrp & Hnr & Hc2)]).
    + exists p, n, [], l2, (nodes s), (m_next n). cbv zeta. fold j.
      split; [done|]. split; [done|]. split; [done|].
      split; [by left|]. split.
      * rewrite Hrun. unfold bind, read_node. rewrite Hp.
        unfold write_link, write_bucket. rewrite Harr. fold j.
        destruct (decide _) as [|Hge];
          [|exfalso; apply Hge; by eapply lookup_lt_Some].
        unfold modify, free_node. simpl. by rewrite Hp.
      * apply (table_inv_unlink s bs arr j [] p l2 n); try done.
        apply relinked_refl.
    + exists p, n, l1, l2,
        (<[r := mkNode (m_key nr) (m_val nr) (m_next n)]> (nodes s)), hd.
      cbv zeta. fold j.
      split; [done|]. split; [done|]. split; [done|].
      split; [right; by exists r, nr|]. split.
      * rewrite Hrun. unfold bind, read_node. rewrite Hp.
        unfold write_link, bind, read_node, write_node. rewrite Hnr.
        simpl. rewrite Hnr.
        unfold modify, free_node. simpl. rewrite lookup_insert_ne by done.
        rewrite Hp. unfold Removed, ret, set_nodes, set_count. simpl.
        by rewrite Harr, (list_insert_id arr j hd Hhd).
      * apply (table_inv_unlink s bs arr j l1 p l2 n); try done.
        -- by apply (relinked_insert (nodes s) r nr).
        -- intros q Hq. apply lookup_insert_ne. intros <-.
           apply Hq, elem_of_app. by left.
  - left. split; [|done]. intros q Hq. apply Hfm in Hq. congruence.
Qed.

(** *** Lookup on a table in use *)

Lemma FindNode_maps_at s bs k p :
  table_inv s bs -> maps_at s k p -> FindNode k s = (s, Ok (Some p)).
Proof.
  intros Hinv Hm. destruct (FindNode_spec s bs k Hinv) as (o & Hrun & Ho).
  apply Ho in Hm. by rewrite Hrun, Hm.
Qed.

Lemma FindNode_miss s bs k :
  table_inv s bs -> (forall q, ~ maps_at s k q) -> FindNode k s = (s, Ok None).
Proof.
  intros Hinv Hmiss. destruct (FindNode_spec s bs k Hinv) as (o & Hrun & Ho).
  destruct o as [p|]; [|done]. destruct (Hmiss p). by apply Ho.
Qed.

Lemma Lookup_hit s bs k p n :
  table_inv s bs -> maps_at s k p -> nodes s !! p = Some n ->
  Lookup k None s = (s, Ok true) /\
  forall cell,
    Lookup k (Some cell) s = (set_cells (<[cell := m_val n]> (cells s)) s, Ok true).
Proof.
  intros Hinv Hm Hp. pose proof (FindNode_maps_at s bs k p Hinv Hm) as Hf.
  split; [|intros cell]; unfold Lookup, bind; rewrite Hf; [done|].
  unfold read_node. by rewrite Hp.
Qed.

Lemma Lookup_miss s bs k pVal :
  table_inv s bs -> (forall q, ~ maps_at s k q) -> Lookup k pVal s = (s, Ok false).
Proof.
  intros Hinv Hmiss. unfold Lookup, bind.
  by rewrite (FindNode_miss s bs k Hinv Hmiss).
Qed.

(** *** The table the constructor leaves *)

Lemma table_inv_New (c : gmap ptr Value) : table_inv (New (Key:=Key) c) [].
Proof.
  split; simpl; try done.
  - apply NoDup_nil_2.
  - intros p. rewrite lookup_empty. split; [by intros ?%elem_of_nil|by intros [? ?]].
Qed.

Lemma Remove_uninitialised s k : m_table s = None -> Remove k s = (s, Fault).
Proof.
  intros Hn. unfold Remove, bind, GetIndexForKey, get, ret. simpl.
  unfold read_bucket. by rewrite Hn.
Qed.

(** *** The searches do not write *)

Lemma find_loop_pure fuel k hd s :
  exists o, find_loop fuel k hd s = (s, o) /\
            forall p, o = Ok (Some p) -> is_Some (nodes s !! p).
Proof.
  revert hd. induction fuel as [|fuel IH]; intros [q|]; simpl;
    try (by eexists; split; [reflexivity|]).
  - unfold bind, read_node. destruct (nodes s !! q) as [n|] eqn:Hq;
      [|by eexists; split; [reflexivity|]].
    destruct (Equals k (m_key n)); eexists; (split; [reflexivity|]); [|done].
    intros p [= <-]. eauto.
  - unfold bind, read_node. destruct (nodes s !! q) as [n|] eqn:Hq;
      [|by eexists; split; [reflexivity|]].
    destruct (Equals k (m_key n)); [|apply IH].
    eexists; (split; [reflexivity|]). intros p [= <-]. eauto.
Qed.

Lemma FindNode_pure k s :
  exists o, FindNode k s = (s, o) /\
            forall p, o = Ok (Some p) -> is_Some (nodes s !! p).
Proof.
  unfold FindNode, GetIndexForKey, bind, get, ret.
  destruct (prime (m_tableSizeInfo s) =? 0); [by eexists; split; [reflexivity|]|].
  unfold read_bucket. destruct (m_table s) as [arr|];
    [|by eexists; split; [reflexivity|]].
  destruct (arr !! _) as [[q|]|]; try (by eexists; split; [reflexivity|]).
  apply find_loop_pure.
Qed.

(** *** RemoveAll *)

Lemma free_chain_spec l :
  forall fuel hd s,
  chain (nodes s) hd l -> NoDup l -> (length l <= fuel)%nat ->
  exists h',
    free_chain fuel hd s = (set_nodes h' s, Ok tt) /\
    (forall q, q ∈ l -> h' !! q = None) /\
    (forall q, q ∉ l -> h' !! q = nodes s !! q).
Proof.
  induction l as [|p l IH]; intros fuel hd s Hc Hnd Hlen; simpl in Hc.
  - subst hd. exists (nodes s). split; [|split; [|done]].
    + destruct fuel; simpl; unfold ret; by rewrite set_nodes_same.
    + intros q Hq. by apply elem_of_nil in Hq.
  - destruct Hc as [-> (n & Hp & Hc)]. apply NoDup_cons in Hnd as [Hpl Hnd].
    destruct fuel as [|fuel]; [simpl in Hlen; lia|]. simpl in Hlen.
    destruct (IH fuel (m_next n) (set_nodes (delete p (nodes s)) s))
      as (h' & Hrun & Hin & Hout); [by apply chain_delete|done|lia|].
    exists h'. split; [|split].
    + cbn [free_chain]. unfold bind at 1. unfold read_node at 1. rewrite Hp.
      unfold bind at 1. unfold free_node at 1. rewrite Hp. exact Hrun.
    + intros q Hq. apply elem_of_cons in Hq as [->|Hq]; [|by apply Hin].
      rewrite (Hout p Hpl). simpl. apply lookup_delete_eq.
    + intros q Hq. apply not_elem_of_cons in Hq as [Hqp Hql].
      rewrite (Hout q Hql). simpl. by apply lookup_delete_ne.
Qed.

Lemma free_buckets_spec fuel cs :
  forall heads i s arr,
  m_table s = Some arr -> 0 <= i -> drop (Z.to_nat i) arr = heads ->
  Forall2 (chain (nodes s)) heads cs ->
  NoDup (mjoin cs) ->
  (forall c, c ∈ cs -> length c <= fuel)%nat ->
  exists h',
    free_buckets fuel (length heads) i s = (set_nodes h' s, Ok tt) /\
    (forall q, q ∈ mjoin cs -> h' !! q = None) /\
    (forall q, q ∉ mjoin cs -> h' !! q = nodes s !! q).
Proof.
  induction cs as [|c cs IH]; intros heads i s arr Harr Hi Hdrop HF Hnd Hfuel.
  - apply Forall2_nil_inv_r in HF as ->. exists (nodes s). simpl. unfold ret.
    rewrite set_nodes_same. split; [done|]. split; [|done].
    intros q Hq. by apply elem_of_nil in Hq.
  - apply Forall2_cons_inv_r in HF as (hd & heads' & Hc & HF & ->).
    simpl in Hnd. apply NoDup_app in Hnd as (Hndc & Hdisj & Hnd).
    assert (Hhd : arr !! Z.to_nat i = Some hd).
    { rewrite <- (Nat.add_0_r (Z.to_nat i)), <- lookup_drop. by rewrite Hdrop. }
    destruct (free_chain_spec c fuel hd s Hc Hndc) as (h1 & Hrun1 & Hin1 & Hout1).
    { apply Hfuel. left. }
    destruct (IH heads' (i + 1) (set_nodes h1 s) arr)
      as (h' & Hrun & Hin & Hout); try done.
    + lia.
    + replace (Z.to_nat (i + 1)) with (S (Z.to_nat i)) by lia.
      rewrite (drop_S arr hd (Z.to_nat i) Hhd) in Hdrop. by injection Hdrop.
    + simpl. apply Forall2_same_length_lookup_2; [by eapply Forall2_length|].
      intros j x y Hx Hy.
      pose proof (Forall2_lookup_lr _ _ _ _ _ _ HF Hx Hy) as Hxy.
      eapply chain_same; [done|]. intros q Hq. apply Hout1.
      intros Hqc. apply (Hdisj q Hqc). by eapply elem_of_join_lookup.
    + intros c' Hc'. apply Hfuel. by right.
    + exists h'. split; [|split].
      * cbn [free_buckets length]. unfold bind at 1. unfold read_bucket at 1.
        rewrite Harr, Hhd. unfold bind at 1. rewrite Hrun1. exact Hrun.
      * simpl. intros q Hq. apply elem_of_app in Hq as [Hq|Hq]; [|by apply Hin].
        destruct (decide (q ∈ mjoin cs)) as [Hq'|Hq']; [by apply Hin|].
        rewrite (Hout q Hq'). simpl. by apply Hin1.
      * simpl. intros q Hq. apply not_elem_of_app in Hq as [Hqc Hqcs].
        rewrite (Hout q Hqcs). simpl. by apply Hout1.
Qed.

(** [RemoveAll] takes a table in use back to the state the constructor
    leaves; the caller's cells stay. *)
Lemma RemoveAll_spec s bs :
  table_inv s bs -> RemoveAll s = (New (cells s), Ok tt).
Proof.
  intros Hinv. pose proof (inv_array _ _ Hinv) as Ha.
  assert (Hloop : exists h',
    free_buckets (walk_fuel s) (Z.to_nat (prime (m_tableSizeInfo s))) 0 s
      = (set_nodes h' s, Ok tt) /\ h' = ∅).
  { destruct (m_table s) as [arr|] eqn:Harr.
    - destruct Ha as (HF & _ & _).
      destruct (free_buckets_spec (walk_fuel s) bs arr 0 s arr)
        as (h' & Hrun & Hin & Hout); try done.
      + apply (inv_nodup _ _ Hinv).
      + intros c Hc. apply list_elem_of_lookup_1 in Hc as [i Hi].
        by eapply inv_chain_length.
      + exists h'. rewrite <- (inv_array_length s bs arr Hinv Harr).
        split; [done|]. apply map_empty. intros q.
        destruct (decide (q ∈ mjoin bs)) as [Hq|Hq]; [by apply Hin|].
        rewrite (Hout q Hq). apply eq_None_not_Some.
        by rewrite <- (inv_dom _ _ Hinv).
    - destruct Ha as (-> & Hp & _). rewrite Hp. simpl. exists (nodes s).
      unfold ret. rewrite set_nodes_same. split; [done|].
      apply map_empty. intros q. by apply (inv_no_array s [] q). }
  destruct Hloop as (h' & Hrun & ->).
  unfold RemoveAll, bind, get. rewrite Hrun. reflexivity.
Qed.

(** *** Every state a run reaches satisfies the invariant *)

Lemma Lookup_cells k pVal s s' o :
  Lookup k pVal s = (s', o) -> exists c', s' = set_cells c' s.
Proof.
  destruct (FindNode_pure k s) as (o' & Hf & _).
  unfold Lookup, bind. rewrite Hf.
  assert (Hs : s = set_cells (cells s) s) by (by destruct s).
  destruct o' as [[p|]| | |]; simpl; try (intros [= <- _]; by eexists).
  destruct pVal as [cell|]; simpl.
  - unfold read_node. destruct (nodes s !! p); simpl; intros [= <- _]; by eexists.
  - intros [= <- _]. by eexists.
Qed.

Lemma table_inv_set_cells s bs (c' : gmap ptr Value) :
  table_inv s bs -> table_inv (set_cells c' s) bs.
Proof. intros [H1 H2 H3 H4 H5 H6 H7]. by split. Qed.

Lemma run_op_inv s o s' :
  table_ok s -> run_op primeInfo o s = (s', Ok tt) ->
  table_ok s' /\ (size (nodes s') <= S (size (nodes s)))%nat.
Proof.
  intros [bs Hinv] Hrun. destruct o as [k v|k|k pVal|]; simpl in Hrun.
  - unfold bind, ret in Hrun.
    destruct (Set_ primeInfo k v s) as [s2 [b| | |]] eqn:Hset; try done.
    injection Hrun as ->.
    destruct (Set_cases s bs k v Hinv)
      as [[_ Hf]|(s1 & bs1 & arr & hd & l & _ & Hinv1 & Hgr & _ & _ & _ & _ & Hcase)];
      [congruence|].
    destruct Hgr as (Hrel & _).
    destruct Hcase as [(p & n & _ & Hp & Hs & Hinv')|(_ & Hal)].
    + rewrite Hs in Hset. injection Hset as <- _. split; [by exists bs1|].
      simpl. rewrite map_size_insert_Some by eauto.
      rewrite (relinked_size _ _ Hrel). lia.
    + destruct (Alloc (nodes s1)) as [p|]; [|congruence].
      destruct Hal as (Hp & Hs & Hinv'). rewrite Hs in Hset.
      injection Hset as <- _. split; [by eexists|].
      simpl. rewrite map_size_insert_None by done.
      rewrite (relinked_size _ _ Hrel). lia.
  - unfold bind, ret in Hrun.
    destruct (Remove k s) as [s2 [b| | |]] eqn:Hrem; try done.
    injection Hrun as ->.
    destruct (m_table s) as [arr|] eqn:Harr.
    + destruct (Remove_cases s bs arr k Hinv Harr)
        as [[_ Hf]|(p & n & l1 & l2 & h1 & hd' & _ & Hp & _ & Hcase & Hr & Hinv')].
      * rewrite Hf in Hrem. injection Hrem as <- _. split; [by exists bs | lia].
      * rewrite Hr in Hrem. injection Hrem as <- _. split; [by eexists|].
        simpl. rewrite map_size_delete.
        assert (size h1 = size (nodes s)) as Hsz.
        { destruct Hcase as [(_ & -> & _)|(r & nr & _ & _ & Hnr & -> & _)]; [done|].
          apply map_size_insert_Some. eauto. }
        destruct (h1 !! p); simpl; lia.
    + rewrite (Remove_uninitialised s k Harr) in Hrem. congruence.
  - unfold bind, ret in Hrun.
    destruct (Lookup k pVal s) as [s2 [b| | |]] eqn:Hl; try done.
    injection Hrun as ->.
    destruct (Lookup_cells k pVal s s' _ Hl) as [c' ->].
    split; [exists bs; by apply table_inv_set_cells | simpl; lia].
  - rewrite (RemoveAll_spec s bs Hinv) in Hrun. injection Hrun as <-.
    split; [eexists; apply table_inv_New|]. simpl. rewrite map_size_empty. lia.
Qed.

Lemma run_ops_inv ops s s' :
  table_ok s -> run_ops primeInfo ops s = (s', Ok tt) ->
  table_ok s' /\ (size (nodes s') <= size (nodes s) + length ops)%nat.
Proof.
  revert s. induction ops as [|o ops IH]; intros s Hok; simpl.
  - unfold ret. intros [= <-]. split; [done | lia].
  - unfold bind. destruct (run_op primeInfo o s) as [s1 [[]| | |]] eqn:Ho; try done.
    intros Hrun. destruct (run_op_inv s o s1 Hok Ho) as [Hok1 Hsz1].
    destruct (IH s1 Hok1 Hrun) as [Hok' Hsz']. split; [done | lia].
Qed.

Lemma reachable_ok ops (c : gmap ptr Value) s :
  run_ops primeInfo ops (New c) = (s, Ok tt) ->
  table_ok s /\ (size (nodes s) <= length ops)%nat.
Proof.
  intros Hrun.
  destruct (run_ops_inv ops (New c) s) as [Hok Hsz]; [by eexists; apply table_inv_New|done|].
  split; [done|]. simpl in Hsz. by rewrite map_size_empty in Hsz.
Qed.

Lemma run_ops_app ops1 ops2 s :
  run_ops primeInfo (ops1 ++ ops2) s =
  bind (run_ops primeInfo ops1) (fun _ => run_ops primeInfo ops2) s.
Proof.
  revert s. induction ops1 as [|o ops1 IH]; intros s; simpl; [done|].
  unfold bind. destruct (run_op primeInfo o s) as [s1 [b| | |]]; [|done..].
  apply IH.
Qed.

(** After [RemoveAll] no key is mapped and the count is zero. *)
Lemma RemoveAll_then_Lookup (ops : list (op Key Value)) (c : gmap ptr Value)
    (s : State Key Value) (k : Key) (pVal : option ptr) :
  run_ops primeInfo ops (New c) = (s, Ok tt) ->
  exists s', RemoveAll s = (s', Ok tt) /\
             m_tableCount s' = 0 /\ Lookup k pVal s' = (s', Ok false).
Proof.
  intros Hreach. destruct (reachable_ok ops c s Hreach) as [[bs Hinv] _].
  exists (New (cells s)). split; [by apply (RemoveAll_spec s bs)|].
  split; reflexivity.
Qed.

(** *** Lookup with a null pointer *)

(** C10.  [Lookup] with a [NULL] value pointer leaves every part of the
    state as it was (nodes, bucket array, members, caller cells), and its
    outcome is the outcome of the call with a cell to write. *)
Theorem Lookup_null_pointer (s : State Key Value) (k : Key) (cell : ptr) :
  (Lookup k None s).1 = s /\
  (Lookup k None s).2 = (Lookup k (Some cell) s).2 /\
  (forall b, (Lookup k None s).2 = Ok b ->
     Lookup k None s = (s, Ok b) /\
     exists c', Lookup k (Some cell) s = (set_cells c' s, Ok b)).
Proof.
  destruct (FindNode_pure k s) as (o & Hf & Hlive).
  unfold Lookup, bind. rewrite Hf.
  destruct o as [[p|]| | |]; simpl; try done.
  - destruct (Hlive p eq_refl) as [n Hp]. unfold read_node. rewrite Hp. simpl.
    split; [done|]. split; [done|]. intros b [= <-]. split; [done|]. eauto.
  - split; [done|]. split; [done|]. intros b [= <-]. split; [done|].
    exists (cells s). by destruct s.
Qed.

(** *** Failure during growth *)

Lemma Reallocate_NoMemory newTableSize s s' :
  Reallocate primeInfo newTableSize s = (s', NoMemory) -> s' = s.
Proof.
  unfold Reallocate, bind, lift.
  destruct (NextPrime primeInfo newTableSize) as [info| | |]; try congruence.
  destruct (ArrayAlloc (prime info)); simpl; [|congruence].
  destruct (move_buckets _ _ _ _ _ _) as [s1 [tbl| | |]] eqn:Hm; try done.
  by apply move_buckets_outcome in Hm.
Qed.

(** C9.  A growth that fails leaves the state as it was: [Reallocate]
    gives up exactly where [NextPrime] runs out of primes or where the
    allocation of the bucket array fails, both before any member or link
    is written, and so do [Grow], [CheckGrowth] and the [Set] that asked
    for the growth. *)
Theorem growth_failure_keeps_state (s : State Key Value) :
  (forall n, NextPrime primeInfo n = NoMemory ->
     Reallocate primeInfo n s = (s, NoMemory)) /\
  (forall n info, NextPrime primeInfo n = Ok info ->
     ArrayAlloc (prime info) = false ->
     Reallocate primeInfo n s = (s, NoMemory)) /\
  (forall n s', Reallocate primeInfo n s = (s', NoMemory) -> s' = s) /\
  (forall s', Grow primeInfo s = (s', NoMemory) -> s' = s) /\
  (forall s', CheckGrowth primeInfo s = (s', NoMemory) -> s' = s) /\
  (forall k v s', CheckGrowth primeInfo s = (s', NoMemory) ->
     Set_ primeInfo k v s = (s, NoMemory)).
Proof.
  assert (HG : forall s', Grow primeInfo s = (s', NoMemory) -> s' = s).
  { intros s'. rewrite Grow_eq.
    destruct (Grow_floored (m_tableCount s) <? m_tableCount s); [congruence|].
    apply Reallocate_NoMemory. }
  assert (HC : forall s', CheckGrowth primeInfo s = (s', NoMemory) -> s' = s).
  { intros s'. rewrite CheckGrowth_eq.
    destruct (m_tableCount s =? m_tableMax s); [apply HG | done]. }
  split; [|split; [|split; [|split; [|split]]]]; try done.
  - intros n Hn. unfold Reallocate, bind, lift. by rewrite Hn.
  - intros n info Hn Ha. unfold Reallocate, bind, lift. by rewrite Hn, Ha.
  - intros n s'. apply Reallocate_NoMemory.
  - intros k v s' Hcg. pose proof (HC s' Hcg) as ->.
    unfold Set_. unfold bind at 1. by rewrite Hcg.
Qed.

(** *** NextPrime *)

Lemma NextPrime_loop_spec n i number :
  (i + n <= length primeInfo)%nat ->
  match NextPrime_loop primeInfo n i number with
  | Ok info =>
      exists j, (i <= j < i + n)%nat /\ primeInfo !! j = Some info /\
                number <= prime info /\
                forall j' info', (i <= j' < j)%nat ->
                  primeInfo !! j' = Some info' -> prime info' < number
  | NoMemory =>
      forall j info', (i <= j < i + n)%nat ->
        primeInfo !! j = Some info' -> prime info' < number
  | _ => False
  end.
Proof.
  revert i. induction n as [|n IH]; intros i Hlen; simpl.
  - intros j info' Hj. lia.
  - destruct (lookup_lt_is_Some_2 primeInfo i) as [info Hi]; [lia|].
    rewrite Hi. destruct (Z.leb_spec number (prime info)) as [Hle|Hlt].
    + exists i. split; [lia|]. split; [done|]. split; [done|].
      intros j' info' Hj'. lia.
    + specialize (IH (S i) ltac:(lia)).
      destruct (NextPrime_loop primeInfo n (S i) number) as [info0| | |]; try done.
      * destruct IH as (j & Hj & Hjl & Hle & Hmin). exists j.
        split; [lia|]. split; [done|]. split; [done|].
        intros j' info' Hj' Hl'. destruct (decide (j' = i)) as [->|Hne].
        -- by replace info' with info by congruence.
        -- apply (Hmin j' info'); [lia | done].
      * intros j info' Hj Hl'. destruct (decide (j = i)) as [->|Hne].
        -- by replace info' with info by congruence.
        -- apply (IH j info'); [lia | done].
Qed.

(** C8.  On a table of 27 descriptors [NextPrime] returns the first
    entry whose prime is at least [number]; when every prime of the
    table is smaller it ends in [Behavior::NoMemory()]; it has no other
    outcome. *)
Theorem NextPrime_first_fit (number : Z) :
  length primeInfo = 27%nat ->
  match NextPrime primeInfo number with
  | Ok info =>
      exists j, primeInfo !! j = Some info /\ number <= prime info /\
                forall j' info', (j' < j)%nat ->
                  primeInfo !! j' = Some info' -> prime info' < number
  | NoMemory => forall info', info' ∈ primeInfo -> prime info' < number
  | _ => False
  end.
Proof.
  intros Hlen. pose proof (NextPrime_loop_spec 27 0 number ltac:(lia)) as H.
  unfold NextPrime. destruct (NextPrime_loop primeInfo 27 0 number) as [info| | |];
    try done.
  - destruct H as (j & _ & Hj & Hle & Hmin). exists j. split; [done|].
    split; [done|]. intros j' info' Hj'. apply Hmin. lia.
  - intros info' Hin. apply list_elem_of_lookup_1 in Hin as [j Hj].
    apply (H j info'); [|done]. apply lookup_lt_Some in Hj. lia.
Qed.

(** *** Set, then Lookup *)

(** C1.  In a table reached from the constructor by calls of [Set],
    [Remove], [Lookup] and [RemoveAll], a [Set k v] that returns is
    followed by a [Lookup k] that reports the key with the value [v],
    written to the caller's cell when one is given; whether the [Set]
    grew the table or not. *)
Theorem Set_then_Lookup (ops : list (op Key Value)) (c : gmap ptr Value)
    (s s' : State Key Value) (k : Key) (v : Value) (b : bool) (cell : ptr) :
  run_ops primeInfo ops (New c) = (s, Ok tt) ->
  Set_ primeInfo k v s = (s', Ok b) ->
  Lookup k None s' = (s', Ok true) /\
  Lookup k (Some cell) s' = (set_cells (<[cell := v]> (cells s')) s', Ok true).
Proof.
  intros Hreach Hset. destruct (reachable_ok ops c s Hreach) as [[bs Hinv] _].
  destruct (Set_cases s bs k v Hinv)
    as [[_ Hf]|(s1 & bs1 & arr & hd & l & _ & Hinv1 & _ & _ & _ & _ & _ & Hcase)];
    [congruence|].
  destruct Hcase as [(p & n & (n0 & Hp0 & He) & Hp & Hs & Hinv')|(_ & Hal)].
  - rewrite Hs in Hset. injection Hset as <- _.
    replace n0 with n in He by congruence.
    destruct (Lookup_hit (Set_found s1 p n v) bs1 k p
                (mkNode (m_key n) v (m_next n)) Hinv') as [H1 H2].
    + eexists. split; [apply lookup_insert_eq | done].
    + apply lookup_insert_eq.
    + split; [done | apply H2].
  - destruct (Alloc (nodes s1)) as [p|]; [|congruence].
    destruct Hal as (Hp & Hs & Hinv'). rewrite Hs in Hset. injection Hset as <- _.
    destruct (Lookup_hit _ _ k p (mkNode k v hd) Hinv') as [H1 H2].
    + eexists. split; [apply lookup_insert_eq | apply Equals_refl].
    + apply lookup_insert_eq.
    + split; [done | apply H2].
Qed.

(** *** The count *)

(** C2 (the failing case).  A sequence of [Set] and [Remove] calls on
    the empty table that starts with a [Remove] does not get past that
    call: [Remove] reads the bucket array that is not there (the fault
    of C5), whatever calls follow, and the sequence leaves no count to
    compare with the number of keys. *)
Theorem Remove_first_faults (c : gmap ptr Value) (k : Key)
    (ops : list (op Key Value)) :
  run_ops primeInfo (OpRemove k :: ops) (New c) = (New c, Fault).
Proof.
  simpl. unfold bind. by rewrite (Remove_uninitialised (New c) k eq_refl).
Qed.

(** X15.  After every sequence of [Set], [Remove], [Lookup] and
    [RemoveAll] calls in which each call returned (so no [Remove] met a
    table without bucket array), and after every prefix of it, the
    nodes of the table have keys that the policy tells apart two by two,
    every node is the one [FindNode] returns for its key and [FindNode]
    returns no other, and the count is the number of nodes (modulo 2^32,
    hence exactly when fewer than 2^32 calls were made). *)
Theorem count_is_number_of_keys (ops : list (op Key Value))
    (c : gmap ptr Value) (s : State Key Value) :
  run_ops primeInfo ops (New c) = (s, Ok tt) ->
  forall ops1 ops2, ops = ops1 ++ ops2 ->
  exists s1,
    run_ops primeInfo ops1 (New c) = (s1, Ok tt) /\
    (forall p q n m, nodes s1 !! p = Some n -> nodes s1 !! q = Some m ->
       Equals (m_key n) (m_key m) = true -> p = q) /\
    (forall p n, nodes s1 !! p = Some n ->
       FindNode (m_key n) s1 = (s1, Ok (Some p))) /\
    (forall k p, FindNode k s1 = (s1, Ok (Some p)) -> maps_at s1 k p) /\
    m_tableCount s1 = u32 (Z.of_nat (size (nodes s1))) /\
    (Z.of_nat (length ops) < 2 ^ 32 ->
     m_tableCount s1 = Z.of_nat (size (nodes s1))).
Proof.
  intros Hrun ops1 ops2 ->. rewrite run_ops_app in Hrun. unfold bind in Hrun.
  destruct (run_ops primeInfo ops1 (New c)) as [s1 [[]| | |]] eqn:H1; try done.
  exists s1. split; [done|].
  destruct (reachable_ok ops1 c s1 H1) as [[bs Hinv] Hsz].
  split; [apply (inv_keys _ _ Hinv)|]. split; [|split; [|split]].
  - intros p n Hp. apply (FindNode_maps_at s1 bs); [done|].
    exists n. split; [done | apply Equals_refl].
  - intros k p Hf. destruct (FindNode_spec s1 bs k Hinv) as (o & Hrun1 & Ho).
    apply Ho. congruence.
  - apply (inv_count _ _ Hinv).
  - intros Hlen. rewrite (inv_count _ _ Hinv). apply u32_id.
    rewrite length_app in Hlen. split; lia.
Qed.

(** *** Growth keeps the contents *)

(** C3.  A [Grow] that returns keeps the node objects: the same
    addresses hold the same keys and values, only the links, the bucket
    array, its descriptor and the threshold change.  [FindNode] returns
    the same node for every key afterwards, so [Lookup] reports the same
    keys and writes the same values, and no key appears. *)
Theorem Grow_preserves_contents (ops : list (op Key Value))
    (c : gmap ptr Value) (s s' : State Key Value) :
  run_ops primeInfo ops (New c) = (s, Ok tt) ->
  Grow primeInfo s = (s', Ok tt) ->
  relinked (nodes s) (nodes s') /\
  m_tableCount s' = m_tableCount s /\
  cells s' = cells s /\
  (forall k, exists o, FindNode k s = (s, Ok o) /\ FindNode k s' = (s', Ok o)) /\
  (forall k, (Lookup k None s').2 = (Lookup k None s).2) /\
  (forall k cell, (Lookup k (Some cell) s').2 = (Lookup k (Some cell) s).2 /\
     cells (Lookup k (Some cell) s').1 = cells (Lookup k (Some cell) s).1).
Proof.
  intros Hreach Hgrow. destruct (reachable_ok ops c s Hreach) as [[bs Hinv] _].
  destruct (Grow_total s bs Hinv) as [Hf|(s2 & bs' & Hg & Hinv' & Hgr)];
    [congruence|].
  assert (s2 = s') as -> by congruence.
  destruct Hgr as (Hrel & _ & Hcnt & Hcells).
  assert (Hmaps : forall k p, maps_at s k p <-> maps_at s' k p).
  { intros k p. split.
    - intros (n & Hp & He).
      destruct (relinked_Some _ _ _ _ Hrel Hp) as (n' & Hp' & Hk & _).
      exists n'. by rewrite Hk.
    - intros (n' & Hp' & He).
      destruct (relinked_Some_inv _ _ _ _ Hrel Hp') as (n & Hp & Hk & _).
      exists n. by rewrite <- Hk. }
  assert (Hfind : forall k, exists o,
            FindNode k s = (s, Ok o) /\ FindNode k s' = (s', Ok o)).
  { intros k. destruct (FindNode_spec s bs k Hinv) as (o & Hrun & Ho).
    destruct (FindNode_spec s' bs' k Hinv') as (o' & Hrun' & Ho').
    exists o. split; [done|]. rewrite Hrun'. do 2 f_equal.
    destruct o as [p|].
    - apply Ho'. apply Hmaps. by apply Ho.
    - destruct o' as [p'|]; [|done]. symmetry. apply Ho. apply Hmaps. by apply Ho'. }
  split; [done|]. split; [done|]. split; [done|]. split; [done|]. split.
  - intros k. destruct (Hfind k) as (o & H1 & H2).
    unfold Lookup, bind. rewrite H1, H2. by destruct o.
  - intros k cell. destruct (Hfind k) as (o & H1 & H2).
    unfold Lookup, bind. rewrite H1, H2. destruct o as [p|]; simpl; [|done].
    destruct (FindNode_spec s bs k Hinv) as (o & Hrun & Ho).
    assert (Hm : maps_at s k p) by (apply Ho; congruence).
    destruct Hm as (n & Hp & _).
    destruct (relinked_Some _ _ _ _ Hrel Hp) as (n' & Hp' & _ & Hv).
    unfold read_node. rewrite Hp, Hp'. simpl. by rewrite Hv, Hcells.
Qed.

(** *** Remove on a table without bucket array *)

(** C5 (the failing case).  On the table the constructor leaves,
    [Remove] reads [m_table[index]] through the [NULL] bucket array:
    unlike [FindNode] it does not test [m_tableSizeInfo.prime == 0]. *)
Theorem Remove_on_new_table (c : gmap ptr Value) (k : Key) :
  Remove k (New c) = (New c, Fault) /\
  FindNode k (New c) = (New c, Ok None).
Proof. split; [by apply Remove_uninitialised | reflexivity]. Qed.

(** On a table in use [Remove] does what is expected of it: a key that
    is not mapped leaves the state as it is; the node of a mapped key is
    spliced out of its chain and freed, the count drops by one, and the
    bucket array keeps its size, descriptor and threshold. *)
Lemma Remove_in_use (ops : list (op Key Value)) (c : gmap ptr Value)
    (s : State Key Value) (arr : list (option ptr)) (k : Key) :
  run_ops primeInfo ops (New c) = (s, Ok tt) -> m_table s = Some arr ->
  ((forall q, ~ maps_at s k q) /\ Remove k s = (s, Ok false)) \/
  exists p n s' arr',
    maps_at s k p /\ nodes s !! p = Some n /\
    Remove k s = (s', Ok true) /\
    nodes s' !! p = None /\
    (forall q, q <> p -> is_Some (nodes s' !! q) <-> is_Some (nodes s !! q)) /\
    (forall q m, nodes s' !! q = Some m ->
       exists m0, nodes s !! q = Some m0 /\ m_key m = m_key m0 /\ m_val m = m_val m0) /\
    (forall q, ~ maps_at s' k q) /\
    m_tableCount s' = u32 (m_tableCount s - 1) /\
    m_table s' = Some arr' /\ length arr' = length arr /\
    m_tableSizeInfo s' = m_tableSizeInfo s /\
    m_tableMax s' = m_tableMax s /\
    cells s' = cells s /\ table_ok s'.
Proof.
  intros Hreach Harr. destruct (reachable_ok ops c s Hreach) as [[bs Hinv] _].
  destruct (Remove_cases s bs arr k Hinv Harr)
    as [Hmiss|(p & n & l1 & l2 & h1 & hd' & Hm & Hp & Hl & Hcase & Hr & Hinv')];
    [by left|right].
  assert (Hrel : relinked (nodes s) h1).
  { destruct Hcase as [(_ & -> & _)|(r & nr & _ & _ & Hnr & -> & _)].
    - apply relinked_refl.
    - by apply (relinked_insert (nodes s) r nr). }
  eexists p, n, _, _. split; [done|]. split; [done|]. split; [exact Hr|].
  simpl. split; [apply lookup_delete_eq|]. split; [|split; [|split]].
  - intros q Hq. rewrite lookup_delete_ne by done.
    rewrite <- !elem_of_dom. by rewrite (relinked_dom _ _ Hrel).
  - intros q m Hq. apply lookup_delete_Some in Hq as [_ Hq].
    destruct (relinked_Some_inv _ _ _ _ Hrel Hq) as (m0 & ? & ? & ?). eauto.
  - intros q (m & Hq & He). simpl in Hq.
    apply lookup_delete_Some in Hq as [Hne Hq].
    destruct (relinked_Some_inv _ _ _ _ Hrel Hq) as (m0 & Hq0 & Hk & _).
    apply Hne. apply (maps_at_unique s bs k p q Hinv Hm).
    exists m0. by rewrite <- Hk.
  - rewrite length_insert. do 6 (split; [done|]). by eexists.
Qed.

(** *** What Set does *)


(** *** The size Grow asks for *)

Lemma u32_div x d : 0 < d -> u32 (u32 x / d) = u32 x / d.
Proof.
  intros Hd. unfold u32. pose proof (Z.mod_pos_bound x (2 ^ 32) ltac:(lia)) as Hx.
  apply Z.mod_small. split; [apply Z.div_pos; lia|].
  apply Z.div_lt_upper_bound; nia.
Qed.

Lemma Grow_newSize_exact count :
  0 <= count ->
  0 <= s_growth_factor_numerator -> 0 < s_growth_factor_denominator ->
  0 <= s_density_factor_denominator -> 0 < s_density_factor_numerator ->
  Grow_overflows count = false ->
  Grow_newSize count = Grow_exact count.
Proof.
  intros Hc Hgn Hgd Hdd Hdn Hov. apply orb_false_elim in Hov as [H1 H2].
  apply Z.leb_gt in H1, H2. unfold Grow_newSize, Grow_exact.
  rewrite !u32_div by done.
  rewrite (u32_id (count * _)) by (split; [nia | done]).
  rewrite u32_id; [done|]. split; [|done].
  apply Z.mul_nonneg_nonneg; [|done]. apply Z.div_pos; [nia | done].
Qed.

(** A table without bucket array moves no node when it is reallocated. *)
Lemma Reallocate_no_array (s : State Key Value) n info :
  prime (m_tableSizeInfo s) = 0 ->
  NextPrime primeInfo n = Ok info -> ArrayAlloc (prime info) = true ->
  Reallocate primeInfo n s =
  (set_max (new_max info)
     (set_sizeInfo info
        (set_table (Some (replicate (Z.to_nat (prime info)) None)) s)), Ok tt).
Proof.
  intros Hp Hn Ha. unfold Reallocate, bind, lift, get. rewrite Hn, Ha.
  unfold ret. rewrite Hp. reflexivity.
Qed.

(** ** Further properties of the operations *)

(** *** What a growth that returns has done *)

Lemma Reallocate_Ok s bs newTableSize s' :
  table_inv s bs ->
  Reallocate primeInfo newTableSize s = (s', Ok tt) ->
  exists info bs' arr,
    NextPrime primeInfo newTableSize = Ok info /\
    ArrayAlloc (prime info) = true /\
    table_inv s' bs' /\
    relinked (nodes s) (nodes s') /\
    m_table s' = Some arr /\ length arr = Z.to_nat (prime info) /\
    m_tableSizeInfo s' = info /\
    m_tableCount s' = m_tableCount s /\
    m_tableMax s' = new_max info /\
    cells s' = cells s.
Proof.
  intros Hinv Hrun.
  destruct (NextPrime_total newTableSize) as [[info Hn]|Hn].
  - destruct (ArrayAlloc (prime info)) eqn:Ha.
    + destruct (Reallocate_spec s bs newTableSize info Hinv Hn Ha)
        as (s2 & bs' & Hrun2 & Hinv' & Hrel & Hsome & Hinfo & Hcnt & Hmax & Hcells).
      assert (s2 = s') as -> by congruence.
      destruct (m_table s') as [arr|] eqn:Harr; [|done].
      exists info, bs', arr. do 5 (split; [done|]).
      split; [|done]. rewrite <- Hinfo. by apply (inv_array_length s' bs').
    + assert (Reallocate primeInfo newTableSize s = (s, NoMemory)); [|congruence].
      unfold Reallocate, bind, lift. by rewrite Hn, Ha.
  - assert (Reallocate primeInfo newTableSize s = (s, NoMemory)); [|congruence].
    unfold Reallocate, bind, lift. by rewrite Hn.
Qed.

Lemma Grow_Ok s s' :
  Grow primeInfo s = (s', Ok tt) ->
  (Grow_floored (m_tableCount s) <? m_tableCount s) = false /\
  Reallocate primeInfo (Grow_floored (m_tableCount s)) s = (s', Ok tt).
Proof.
  rewrite Grow_eq.
  by destruct (Grow_floored (m_tableCount s) <? m_tableCount s).
Qed.

Lemma maps_at_relinked s s' k p :
  relinked (nodes s) (nodes s') -> maps_at s k p <-> maps_at s' k p.
Proof.
  intros Hrel. split.
  - intros (n & Hp & He).
    destruct (relinked_Some _ _ _ _ Hrel Hp) as (n' & Hp' & Hk & _).
    exists n'. by rewrite Hk.
  - intros (n' & Hp' & He).
    destruct (relinked_Some_inv _ _ _ _ Hrel Hp') as (n & Hp & Hk & _).
    exists n. by rewrite <- Hk.
Qed.

(** *** The effect of Set on the nodes *)

(** A [Set] that returns keeps every node where it is, with its key;
    the value changes in the node of the key and nowhere else; one node
    is added when the key was not mapped.  The capacity is the one at
    entry unless count and max were equal. *)
Lemma Set_effect s bs k v s' b :
  table_inv s bs -> Set_ primeInfo k v s = (s', Ok b) ->
  exists bs',
    table_inv s' bs' /\ cells s' = cells s /\ m_table s' <> None /\
    (forall q n, nodes s !! q = Some n ->
       exists n', nodes s' !! q = Some n' /\ m_key n' = m_key n /\
                  m_val n' = if Equals k (m_key n) then v else m_val n) /\
    (if b
     then (exists p, maps_at s k p) /\
          (forall q, is_Some (nodes s' !! q) -> is_Some (nodes s !! q)) /\
          m_tableCount s' = m_tableCount s /\
          size (nodes s') = size (nodes s)
     else (forall q, ~ maps_at s k q) /\
          (exists p n', nodes s !! p = None /\ nodes s' !! p = Some n' /\
             m_key n' = k /\ m_val n' = v /\
             forall q, q <> p -> is_Some (nodes s' !! q) -> is_Some (nodes s !! q)) /\
          m_tableCount s' = u32 (m_tableCount s + 1) /\
          size (nodes s') = S (size (nodes s))) /\
    ((m_tableCount s <> m_tableMax s /\ m_tableMax s' = m_tableMax s /\
      m_tableSizeInfo s' = m_tableSizeInfo s) \/
     (m_tableCount s = m_tableMax s /\
      (Grow_floored (m_tableCount s) <? m_tableCount s) = false /\
      exists info,
        NextPrime primeInfo (Grow_floored (m_tableCount s)) = Ok info /\
        m_tableSizeInfo s' = info /\ m_tableMax s' = new_max info)).
Proof.
  intros Hinv Hset.
  destruct (Set_cases s bs k v Hinv)
    as [[_ Hf]|(s1 & bs1 & arr & hd & l & Hcg & Hinv1 & Hgr & Hsame & Harr & _ & _ & Hcase)];
    [congruence|].
  destruct Hgr as (Hrel & Hsome & Hcnt & Hcells).
  assert (Hcap :
    (m_tableCount s <> m_tableMax s /\ m_tableMax s1 = m_tableMax s /\
      m_tableSizeInfo s1 = m_tableSizeInfo s) \/
     (m_tableCount s = m_tableMax s /\
      (Grow_floored (m_tableCount s) <? m_tableCount s) = false /\
      exists info,
        NextPrime primeInfo (Grow_floored (m_tableCount s)) = Ok info /\
        m_tableSizeInfo s1 = info /\ m_tableMax s1 = new_max info)).
  { destruct (Z.eqb_spec (m_tableCount s) (m_tableMax s)) as [Heq|Hne].
    - right. split; [done|]. rewrite CheckGrowth_eq in Hcg.
      rewrite (proj2 (Z.eqb_eq _ _) Heq) in Hcg.
      destruct (Grow_Ok s s1 Hcg) as [Hfl Hre]. split; [done|].
      destruct (Reallocate_Ok s bs _ s1 Hinv Hre)
        as (info & _ & _ & Hn & _ & _ & _ & _ & _ & Hinfo & _ & Hmax & _).
      by exists info.
    - left. destruct (Hsame Hne) as [-> _]. done. }
  destruct Hcase as [(p & n & Hm & Hp & Hs & Hinv')|(Hmiss & Hal)].
  - rewrite Hs in Hset. injection Hset as <- <-. exists bs1.
    split; [done|]. split; [done|]. split; [done|].
    destruct Hm as (n0 & Hp0 & He). replace n0 with n in He by congruence.
    split; [|split; [|done]].
    + intros q m Hq.
      destruct (relinked_Some _ _ _ _ Hrel Hq) as (m1 & Hq1 & Hk & Hv).
      simpl. destruct (decide (q = p)) as [->|Hne].
      * rewrite lookup_insert_eq. eexists. split; [done|]. simpl.
        replace m1 with n in * by congruence.
        split; [done|]. by rewrite <- Hk, He.
      * rewrite lookup_insert_ne by done. exists m1. split; [done|].
        split; [done|]. destruct (Equals k (m_key m)) eqn:Hek; [|done].
        destruct Hne. symmetry. apply (maps_at_unique s1 bs1 k p q Hinv1).
        -- by exists n.
        -- exists m1. by rewrite Hk.
    + split; [|split; [|split]].
      * exists p. apply (maps_at_relinked s s1 k p Hrel). by exists n.
      * intros q. simpl. rewrite <- !elem_of_dom.
        rewrite dom_insert_L, <- (relinked_dom _ _ Hrel).
        assert (p ∈ dom (nodes s1)) by (apply elem_of_dom; eauto).
        by intros [->%elem_of_singleton|?]%elem_of_union.
      * done.
      * simpl. rewrite map_size_insert_Some by eauto.
        by apply relinked_size.
  - destruct (Alloc (nodes s1)) as [p|]; [|congruence].
    destruct Hal as (Hp & Hs & Hinv'). rewrite Hs in Hset.
    injection Hset as <- <-. eexists.
    split; [exact Hinv'|]. split; [done|]. split; [done|].
    assert (Hps : nodes s !! p = None).
    { apply not_elem_of_dom. rewrite <- (relinked_dom _ _ Hrel).
      by apply not_elem_of_dom. }
    split; [|split; [|done]].
    + intros q m Hq.
      destruct (relinked_Some _ _ _ _ Hrel Hq) as (m1 & Hq1 & Hk & Hv).
      simpl. rewrite lookup_insert_ne by congruence.
      exists m1. split; [done|]. split; [done|].
      destruct (Equals k (m_key m)) eqn:Hek; [|done].
      destruct (Hmiss q). exists m1. by rewrite Hk.
    + split; [|split; [|split]].
      * intros q Hq. apply (Hmiss q). by apply (maps_at_relinked s s1 k q Hrel).
      * exists p. eexists. split; [done|]. simpl.
        split; [apply lookup_insert_eq|]. split; [done|]. split; [done|].
        intros q Hne. rewrite lookup_insert_ne by done.
        rewrite <- !elem_of_dom. by rewrite (relinked_dom _ _ Hrel).
      * simpl. by rewrite Hcnt.
      * simpl. rewrite map_size_insert_None by done.
        by rewrite (relinked_size _ _ Hrel).
Qed.

(** *** The effect of Remove on the nodes *)

(** A [Remove] that returns has found the bucket array; it frees the
    node of the key, if there is one, and keeps every other node with
    its key and value; the bucket array keeps its size, its descriptor
    and its threshold. *)
Lemma Remove_effect s bs k s' b :
  table_inv s bs -> Remove k s = (s', Ok b) ->
  exists bs' arr arr',
    table_inv s' bs' /\
    m_table s = Some arr /\ m_table s' = Some arr' /\ length arr' = length arr /\
    m_tableSizeInfo s' = m_tableSizeInfo s /\ m_tableMax s' = m_tableMax s /\
    cells s' = cells s /\
    (forall q n', nodes s' !! q = Some n' ->
       exists n, nodes s !! q = Some n /\ m_key n' = m_key n /\ m_val n' = m_val n) /\
    (forall q n, nodes s !! q = Some n -> Equals k (m_key n) = false ->
       exists n', nodes s' !! q = Some n' /\ m_key n' = m_key n /\ m_val n' = m_val n) /\
    (forall q, ~ maps_at s' k q) /\
    (if b
     then (exists p, maps_at s k p /\ nodes s' !! p = None) /\
          m_tableCount s' = u32 (m_tableCount s - 1) /\
          S (size (nodes s')) = size (nodes s)
     else s' = s /\ forall q, ~ maps_at s k q).
Proof.
  intros Hinv Hrem. destruct (m_table s) as [arr|] eqn:Harr;
    [|rewrite (Remove_uninitialised s k Harr) in Hrem; congruence].
  destruct (Remove_cases s bs arr k Hinv Harr)
    as [[Hmiss Hr]|(p & n & l1 & l2 & h1 & hd' & Hm & Hp & Hl & Hcase & Hr & Hinv')].
  - rewrite Hr in Hrem. injection Hrem as <- <-. exists bs, arr, arr.
    split; [done|]. do 6 (split; [done|]).
    split; [by eauto|]. split; [by eauto|]. done.
  - rewrite Hr in Hrem. injection Hrem as <- <-.
    assert (Hrel : relinked (nodes s) h1).
    { destruct Hcase as [(_ & -> & _)|(r & nr & _ & _ & Hnr & -> & _)].
      - apply relinked_refl.
      - by apply (relinked_insert (nodes s) r nr). }
    eexists _, arr, _. split; [exact Hinv'|]. simpl.
    split; [done|]. split; [done|]. split; [apply length_insert|].
    do 3 (split; [done|]).
    assert (Hk : Equals k (m_key n) = true).
    { destruct Hm as (n0 & Hp0 & He). by replace n0 with n in He by congruence. }
    split; [|split; [|split; [|split; [|split]]]].
    + intros q m Hq. apply lookup_delete_Some in Hq as [_ Hq].
      by apply (relinked_Some_inv _ _ _ _ Hrel Hq).
    + intros q m Hq Hne.
      destruct (relinked_Some _ _ _ _ Hrel Hq) as (m1 & Hq1 & Hkey & Hv).
      exists m1. split; [|done]. rewrite lookup_delete_ne; [done|].
      intros <-. congruence.
    + intros q (m & Hq & He). simpl in Hq.
      apply lookup_delete_Some in Hq as [Hne Hq].
      destruct (relinked_Some_inv _ _ _ _ Hrel Hq) as (m0 & Hq0 & Hkey & _).
      apply Hne. apply (maps_at_unique s bs k p q Hinv Hm).
      exists m0. by rewrite <- Hkey.
    + exists p. split; [done|]. apply lookup_delete_eq.
    + done.
    + rewrite map_size_delete.
      destruct (relinked_Some _ _ _ _ Hrel Hp) as (n1 & Hp1 & _).
      rewrite Hp1. simpl. rewrite (relinked_size _ _ Hrel).
      pose proof (size_pos_lookup _ _ _ Hp). lia.
Qed.

(** *** The table as a finite map *)

Lemma agrees_Set s bs k v s' b f :
  table_inv s bs -> agrees s f -> Set_ primeInfo k v s = (s', Ok b) ->
  agrees s' (model_op (OpSet k v) f).
Proof.
  intros Hinv Hag Hset.
  destruct (Set_effect s bs k v s' b Hinv Hset)
    as (bs' & Hinv' & _ & _ & Hkeep & Hb & _).
  intros k'. simpl. destruct (Equals k' k) eqn:He.
  - destruct b.
    + destruct Hb as ((p & n & Hp & Hek) & _).
      destruct (Hkeep p n Hp) as (n' & Hp' & Hkey & Hval).
      exists p, n'. split; [done|]. rewrite Hek in Hval. split; [|done].
      rewrite Hkey. by apply (Equals_trans k' k).
    + destruct Hb as (_ & (p & n' & _ & Hp' & Hkey & Hval & _) & _).
      exists p, n'. split; [done|]. split; [|done]. by rewrite Hkey.
  - specialize (Hag k'). destruct (f k') as [w|].
    + destruct Hag as (p & n & Hp & Hek' & Hval).
      destruct (Hkeep p n Hp) as (n' & Hp' & Hkey & Hval').
      exists p, n'. split; [done|]. split; [by rewrite Hkey|].
      destruct (Equals k (m_key n)) eqn:Hek; [|congruence].
      assert (Equals k' k = true); [|congruence].
      apply (Equals_trans k' (m_key n)); [done | by apply Equals_sym].
    + intros p (n' & Hp' & He').
      assert (Hold : is_Some (nodes s !! p) -> False).
      { intros [n Hp]. destruct (Hkeep p n Hp) as (n2 & Hp2 & Hkey & _).
        apply (Hag p). exists n. split; [done|].
        replace n2 with n' in Hkey by congruence. by rewrite <- Hkey. }
      destruct b.
      * destruct Hb as (_ & Hdom & _). apply Hold, Hdom. eauto.
      * destruct Hb as (_ & (p0 & n0 & _ & Hp0 & Hkey & _ & Hdom) & _).
        destruct (decide (p = p0)) as [->|Hne].
        -- replace n0 with n' in Hkey by congruence. congruence.
        -- apply Hold, Hdom; eauto.
Qed.

Lemma agrees_Remove s bs k s' b f :
  table_inv s bs -> agrees s f -> Remove k s = (s', Ok b) ->
  agrees s' (model_op (OpRemove k) f).
Proof.
  intros Hinv Hag Hrem.
  destruct (Remove_effect s bs k s' b Hinv Hrem)
    as (bs' & arr & arr' & Hinv' & _ & _ & _ & _ & _ & _ & Hold & Hkeep & Hgone & _).
  intros k'. simpl. destruct (Equals k' k) eqn:He.
  - intros p (n' & Hp' & He'). apply (Hgone p). exists n'. split; [done|].
    apply (Equals_trans k k'); [by apply Equals_sym | done].
  - specialize (Hag k'). destruct (f k') as [w|].
    + destruct Hag as (p & n & Hp & Hek' & Hval).
      destruct (Hkeep p n Hp) as (n' & Hp' & Hkey & Hval').
      { destruct (Equals k (m_key n)) eqn:Hek; [|done].
        assert (Equals k' k = true); [|congruence].
        apply (Equals_trans k' (m_key n)); [done | by apply Equals_sym]. }
      exists p, n'. split; [done|]. split; [by rewrite Hkey | congruence].
    + intros p (n' & Hp' & He').
      destruct (Hold p n' Hp') as (n & Hp & Hkey & _).
      apply (Hag p). exists n. split; [done|]. by rewrite <- Hkey.
Qed.

Lemma agrees_run_op s o s' f :
  table_ok s -> agrees s f -> run_op primeInfo o s = (s', Ok tt) ->
  agrees s' (model_op o f).
Proof.
  intros [bs Hinv] Hag Hrun. destruct o as [k v|k|k pVal|]; simpl in Hrun.
  - unfold bind, ret in Hrun.
    destruct (Set_ primeInfo k v s) as [s2 [b| | |]] eqn:Hset; try done.
    injection Hrun as ->. by apply (agrees_Set s bs k v s' b).
  - unfold bind, ret in Hrun.
    destruct (Remove k s) as [s2 [b| | |]] eqn:Hrem; try done.
    injection Hrun as ->. by apply (agrees_Remove s bs k s' b).
  - unfold bind, ret in Hrun.
    destruct (Lookup k pVal s) as [s2 [b| | |]] eqn:Hl; try done.
    injection Hrun as ->.
    destruct (Lookup_cells k pVal s s' _ Hl) as [c' ->]. exact Hag.
  - rewrite (RemoveAll_spec s bs Hinv) in Hrun. injection Hrun as <-.
    intros k p (n & Hp & _). simpl in Hp. by rewrite lookup_empty in Hp.
Qed.

Lemma agrees_run_ops ops s s' f :
  table_ok s -> agrees s f -> run_ops primeInfo ops s = (s', Ok tt) ->
  agrees s' (fold_left (fun f o => model_op o f) ops f).
Proof.
  revert s f. induction ops as [|o ops IH]; intros s f Hok Hag; simpl.
  - unfold ret. by intros [= <-].
  - unfold bind. destruct (run_op primeInfo o s) as [s1 [[]| | |]] eqn:Ho; try done.
    intros Hrun. destruct (run_op_inv s o s1 Hok Ho) as [Hok1 _].
    apply (IH s1); [done| |done]. by apply (agrees_run_op s).
Qed.

Lemma agrees_New (c : gmap ptr Value) : agrees (New (Key:=Key) c) (fun _ => None).
Proof. intros k p (n & Hp & _). simpl in Hp. by rewrite lookup_empty in Hp. Qed.

Lemma agrees_Lookup s bs f k :
  table_inv s bs -> agrees s f ->
  match f k with
  | Some v =>
      Lookup k None s = (s, Ok true) /\
      forall cell,
        Lookup k (Some cell) s = (set_cells (<[cell := v]> (cells s)) s, Ok true)
  | None => forall pVal, Lookup k pVal s = (s, Ok false)
  end.
Proof.
  intros Hinv Hag. specialize (Hag k). destruct (f k) as [v|].
  - destruct Hag as (p & n & Hp & He & <-).
    apply (Lookup_hit s bs k p n Hinv); [by exists n | done].
  - intros pVal. by apply (Lookup_miss s bs).
Qed.


(** *** What Set and Remove report, and the count *)

Lemma presence_Lookup s bs k (b : bool) :
  table_inv s bs ->
  (if b then exists p, maps_at s k p else forall q, ~ maps_at s k q) ->
  Lookup k None s = (s, Ok b).
Proof.
  intros Hinv Hb. destruct b.
  - destruct Hb as (p & Hm). pose proof Hm as (n & Hp & _).
    by destruct (Lookup_hit s bs k p n Hinv Hm Hp).
  - by apply (Lookup_miss s bs).
Qed.

(** X2.  [Set] returns true exactly when [Lookup] found the key in the
    table at entry.  Then the count and the number of nodes stay;
    otherwise one node is allocated and [GetCount] is one more (as an
    [unsigned]).  The caller's cells are not written. *)
Theorem Set_reports_presence (ops : list (op Key Value)) (c : gmap ptr Value)
    (s s' : State Key Value) (k : Key) (v : Value) (b : bool) :
  run_ops primeInfo ops (New c) = (s, Ok tt) ->
  Set_ primeInfo k v s = (s', Ok b) ->
  Lookup k None s = (s, Ok b) /\
  (exists n, GetCount s = (s, Ok n) /\
             GetCount s' = (s', Ok (if b then n else u32 (n + 1)))) /\
  size (nodes s') = (if b then size (nodes s) else S (size (nodes s))) /\
  cells s' = cells s.
Proof.
  intros Hreach Hset. destruct (reachable_ok ops c s Hreach) as [[bs Hinv] _].
  destruct (Set_effect s bs k v s' b Hinv Hset)
    as (bs' & Hinv' & Hcells & _ & _ & Hb & _).
  split; [|split; [|split; [|done]]].
  - apply (presence_Lookup s bs); [done|]. destruct b; by destruct Hb.
  - exists (m_tableCount s). split; [done|]. unfold GetCount, bind, get, ret.
    destruct b.
    + destruct Hb as (_ & _ & -> & _). done.
    + destruct Hb as (_ & _ & -> & _). done.
  - destruct b.
    + by destruct Hb as (_ & _ & _ & ->).
    + by destruct Hb as (_ & _ & _ & ->).
Qed.

(** X3.  [Remove] on a table in use returns true exactly when [Lookup]
    found the key at entry; afterwards [Lookup] does not find it.  A
    removal frees one node and takes one off the count; without the key
    the state is the one at entry.  The bucket array never shrinks: its
    length, descriptor and threshold are untouched. *)
Theorem Remove_reports_presence (ops : list (op Key Value)) (c : gmap ptr Value)
    (s s' : State Key Value) (k : Key) (b : bool) :
  run_ops primeInfo ops (New c) = (s, Ok tt) ->
  Remove k s = (s', Ok b) ->
  Lookup k None s = (s, Ok b) /\
  (forall pVal, Lookup k pVal s' = (s', Ok false)) /\
  (exists n, GetCount s = (s, Ok n) /\
             GetCount s' = (s', Ok (if b then u32 (n - 1) else n))) /\
  size (nodes s) = (if b then S (size (nodes s')) else size (nodes s')) /\
  (exists arr arr', m_table s = Some arr /\ m_table s' = Some arr' /\
                    length arr' = length arr) /\
  m_tableSizeInfo s' = m_tableSizeInfo s /\
  m_tableMax s' = m_tableMax s /\
  cells s' = cells s /\
  (b = false -> s' = s).
Proof.
  intros Hreach Hrem. destruct (reachable_ok ops c s Hreach) as [[bs Hinv] _].
  destruct (Remove_effect s bs k s' b Hinv Hrem)
    as (bs' & arr & arr' & Hinv' & Harr & Harr' & Hlen & Hinfo & Hmax & Hcells &
        _ & _ & Hgone & Hb).
  split; [|split; [|split; [|split; [|split; [|split; [|split; [|split]]]]]]];
    try done.
  - apply (presence_Lookup s bs); [done|]. destruct b.
    + destruct Hb as ((p & Hm & _) & _). by exists p.
    + by destruct Hb.
  - intros pVal. by apply (Lookup_miss s' bs').
  - exists (m_tableCount s). split; [done|]. unfold GetCount, bind, get, ret.
    destruct b.
    + by destruct Hb as (_ & -> & _).
    + by destruct Hb as (-> & _).
  - destruct b.
    + by destruct Hb as (_ & _ & <-).
    + by destruct Hb as (-> & _).
  - by exists arr, arr'.
  - intros ->. by destruct Hb.
Qed.

(** *** RemoveAll *)

(** X4.  [RemoveAll], which the destructor calls, frees every node and
    the bucket array of any table the operations produce and leaves
    the members as the constructor does; only the caller's cells are as
    before.  What follows is what follows construction: no key is
    found, the count is zero, and a second [RemoveAll] changes nothing. *)
Theorem RemoveAll_resets (ops : list (op Key Value)) (c : gmap ptr Value)
    (s : State Key Value) :
  run_ops primeInfo ops (New c) = (s, Ok tt) ->
  RemoveAll s = (New (cells s), Ok tt) /\
  nodes (New (Key:=Key) (cells s)) = ∅ /\
  GetCount (New (Key:=Key) (cells s)) = (New (cells s), Ok 0) /\
  (forall k pVal, Lookup k pVal (New (cells s)) = (New (cells s), Ok false)) /\
  RemoveAll (New (Key:=Key) (cells s)) = (New (cells s), Ok tt).
Proof.
  intros Hreach. destruct (reachable_ok ops c s Hreach) as [[bs Hinv] _].
  split; [by apply (RemoveAll_spec s bs)|]. done.
Qed.

(** *** The nodes stay where they are *)

Lemma Equals_same (a b x : Key) :
  Equals a x = true -> Equals b x = Equals a b.
Proof.
  intros Ha. destruct (Equals b x) eqn:Hb, (Equals a b) eqn:Hab; try done.
  - assert (Equals a b = true); [|congruence].
    apply (Equals_trans a x); [done | by apply Equals_sym].
  - assert (Equals b x = true); [|congruence].
    apply (Equals_trans b a); [by apply Equals_sym | done].
Qed.

Lemma FindNode_Some s bs k p :
  table_inv s bs -> FindNode k s = (s, Ok (Some p)) -> maps_at s k p.
Proof.
  intros Hinv Hf. destruct (FindNode_spec s bs k Hinv) as (o & Hrun & Ho).
  apply Ho. congruence.
Qed.

Lemma FindNode_relinked s bs s' bs' k :
  table_inv s bs -> table_inv s' bs' -> relinked (nodes s) (nodes s') ->
  exists o, FindNode k s = (s, Ok o) /\ FindNode k s' = (s', Ok o).
Proof.
  intros Hinv Hinv' Hrel.
  destruct (FindNode_spec s bs k Hinv) as (o & Hrun & Ho).
  destruct (FindNode_spec s' bs' k Hinv') as (o' & Hrun' & Ho').
  exists o. split; [done|]. rewrite Hrun'. do 2 f_equal.
  destruct o as [p|].
  - apply Ho'. apply (maps_at_relinked s s' k p Hrel). by apply Ho.
  - destruct o' as [p'|]; [|done]. symmetry. apply Ho.
    apply (maps_at_relinked s s' k p' Hrel). by apply Ho'.
Qed.


(** X13.  A [Set] that ends in [NoMemory], because the growth failed or
    because no node could be allocated after it, leaves a table in use
    with the mappings it had: the same nodes with their keys and values,
    the same answer of [FindNode] for every key, the same count and the
    same caller cells.  The key was not mapped if the node allocation is
    what failed. *)
Theorem Set_NoMemory_keeps_contents (ops : list (op Key Value))
    (c : gmap ptr Value) (s s' : State Key Value) (k : Key) (v : Value) :
  run_ops primeInfo ops (New c) = (s, Ok tt) ->
  Set_ primeInfo k v s = (s', NoMemory) ->
  table_ok s' /\
  relinked (nodes s) (nodes s') /\
  m_tableCount s' = m_tableCount s /\
  cells s' = cells s /\
  (forall k', exists o, FindNode k' s = (s, Ok o) /\ FindNode k' s' = (s', Ok o)) /\
  (s' = s \/ Alloc (nodes s') = None /\ forall pVal, Lookup k pVal s = (s, Ok false)).
Proof.
  intros Hreach Hset. destruct (reachable_ok ops c s Hreach) as [[bs Hinv] _].
  destruct (Set_cases s bs k v Hinv)
    as [[_ Hf]|(s1 & bs1 & arr & hd & l & Hcg & Hinv1 & Hgr & _ & _ & _ & _ & Hcase)].
  - assert (s' = s) as -> by congruence.
    split; [by exists bs|]. split; [apply relinked_refl|].
    do 2 (split; [done|]). split; [|by left].
    intros k'. destruct (FindNode_spec s bs k' Hinv) as (o & Hrun & _). eauto.
  - destruct Hgr as (Hrel & _ & Hcnt & Hcells).
    destruct Hcase as [(p & n & _ & _ & Hs & _)|(Hmiss & Hal)]; [congruence|].
    destruct (Alloc (nodes s1)) as [p|] eqn:Halloc.
    { destruct Hal as (_ & Hs & _). congruence. }
    assert (s' = s1) as -> by congruence.
    split; [by exists bs1|]. do 3 (split; [done|]). split.
    + intros k'. by apply (FindNode_relinked s bs s1 bs1).
    + right. split; [done|]. intros pVal. apply (Lookup_miss s bs); [done|].
      intros q Hq. apply (Hmiss q). by apply (maps_at_relinked s s1 k q Hrel).
Qed.

(** *** The load of the table *)

Lemma load_run_op s o s' :
  growth_makes_room primeInfo -> table_ok s ->
  Z.of_nat (size (nodes s)) <= m_tableMax s < 2 ^ 32 ->
  (m_table s <> None -> m_tableMax s = new_max (m_tableSizeInfo s)) ->
  run_op primeInfo o s = (s', Ok tt) ->
  Z.of_nat (size (nodes s')) <= m_tableMax s' < 2 ^ 32 /\
  (m_table s' <> None -> m_tableMax s' = new_max (m_tableSizeInfo s')).
Proof.
  intros Hroom [bs Hinv] Hload Hmax Hrun.
  assert (Hcount : m_tableCount s = Z.of_nat (size (nodes s))).
  { rewrite (inv_count _ _ Hinv). apply u32_id. split; lia. }
  destruct o as [k v|k|k pVal|]; simpl in Hrun.
  - unfold bind, ret in Hrun.
    destruct (Set_ primeInfo k v s) as [s2 [b| | |]] eqn:Hset; try done.
    injection Hrun as ->.
    destruct (Set_effect s bs k v s' b Hinv Hset)
      as (bs' & Hinv' & _ & _ & _ & Hb & Hcap).
    assert (Hsz : (size (nodes s') <= S (size (nodes s)))%nat).
    { destruct b.
      - destruct Hb as (_ & _ & _ & ->). lia.
      - destruct Hb as (_ & _ & _ & ->). lia. }
    destruct Hcap as [(Hne & Hm & Hi)|(Heq & Hfl & info & Hn & Hi & Hm)].
    + rewrite Hm, Hi. split; [lia|]. intros _. apply Hmax.
      intros Hnone. by apply Hne, (inv_uninitialised s bs).
    + assert (Hlt : m_tableCount s < new_max info).
      { apply Hroom; [|done|done]. split; lia. }
      rewrite Hm, Hi. split; [|done].
      pose proof (u32_range
        (u32 (prime info * s_density_factor_numerator) / s_density_factor_denominator)).
      unfold new_max in *. lia.
  - unfold bind, ret in Hrun.
    destruct (Remove k s) as [s2 [b| | |]] eqn:Hrem; try done.
    injection Hrun as ->.
    destruct (Remove_effect s bs k s' b Hinv Hrem)
      as (bs' & arr & arr' & _ & Harr & _ & _ & Hi & Hm & _ & _ & _ & _ & Hb).
    rewrite Hm, Hi. split.
    + destruct b.
      * destruct Hb as (_ & _ & Hsz). lia.
      * destruct Hb as (-> & _). lia.
    + intros _. apply Hmax. by rewrite Harr.
  - unfold bind, ret in Hrun.
    destruct (Lookup k pVal s) as [s2 [b| | |]] eqn:Hl; try done.
    injection Hrun as ->.
    by destruct (Lookup_cells k pVal s s' _ Hl) as [c' ->].
  - rewrite (RemoveAll_spec s bs Hinv) in Hrun. injection Hrun as <-.
    simpl. rewrite map_size_empty. split; [lia | done].
Qed.

Lemma load_run_ops ops s s' :
  growth_makes_room primeInfo -> table_ok s ->
  Z.of_nat (size (nodes s)) <= m_tableMax s < 2 ^ 32 ->
  (m_table s <> None -> m_tableMax s = new_max (m_tableSizeInfo s)) ->
  run_ops primeInfo ops s = (s', Ok tt) ->
  Z.of_nat (size (nodes s')) <= m_tableMax s' < 2 ^ 32 /\
  (m_table s' <> None -> m_tableMax s' = new_max (m_tableSizeInfo s')).
Proof.
  intros Hroom. revert s. induction ops as [|o ops IH]; intros s Hok Hload Hmax; simpl.
  - unfold ret. by intros [= <-].
  - unfold bind. destruct (run_op primeInfo o s) as [s1 [[]| | |]] eqn:Ho; try done.
    intros Hrun. destruct (run_op_inv s o s1 Hok Ho) as [Hok1 _].
    destruct (load_run_op s o s1 Hroom Hok Hload Hmax Ho) as [Hload1 Hmax1].
    by apply (IH s1).
Qed.

(** X6.  The load factor is kept.  When every growth makes room (the
    threshold of the array [Grow] obtains is above the count, as it is
    with growth 3/2 and density 3/4), the count never passes the
    threshold [m_tableMax], which is the density factor times the number
    of buckets; the count does not wrap and is the number of nodes. *)
Theorem load_stays_below_threshold (ops : list (op Key Value))
    (c : gmap ptr Value) (s : State Key Value) :
  growth_makes_room primeInfo ->
  run_ops primeInfo ops (New c) = (s, Ok tt) ->
  m_tableCount s = Z.of_nat (size (nodes s)) /\
  m_tableCount s <= m_tableMax s /\
  (forall arr, m_table s = Some arr ->
     m_tableMax s = new_max (m_tableSizeInfo s) /\
     length arr = Z.to_nat (prime (m_tableSizeInfo s))).
Proof.
  intros Hroom Hreach. destruct (reachable_ok ops c s Hreach) as [[bs Hinv] _].
  assert (Hok0 : table_ok (New (Key:=Key) c)) by (eexists; apply table_inv_New).
  assert (Hload0 : Z.of_nat (size (nodes (New (Key:=Key) c))) <= m_tableMax (New (Key:=Key) c) < 2 ^ 32).
  { simpl. rewrite map_size_empty. lia. }
  destruct (load_run_ops ops (New c) s Hroom Hok0 Hload0) as [Hload Hmax];
    [done|done|].
  assert (Hcount : m_tableCount s = Z.of_nat (size (nodes s))).
  { rewrite (inv_count _ _ Hinv). apply u32_id. split; lia. }
  split; [done|]. split; [lia|]. intros arr Harr. split.
  - apply Hmax. by rewrite Harr.
  - by apply (inv_array_length s bs).
Qed.

(** *** Reallocate on its own *)

(** X7.  [Reallocate] called as its [assert] demands, with a size of at
    least count * density denominator / density numerator.  When it
    returns, the bucket array has as many slots as the prime [NextPrime]
    gave for the size, at least the size asked for; descriptor and
    threshold go with that prime; every node is where it was with its
    key and value, [FindNode] answers as before for every key, and count
    and caller cells are untouched. *)
Theorem Reallocate_capacity (ops : list (op Key Value)) (c : gmap ptr Value)
    (s s' : State Key Value) (newTableSize : Z) :
  run_ops primeInfo ops (New c) = (s, Ok tt) ->
  Reallocate_assert newTableSize s = true ->
  Reallocate primeInfo newTableSize s = (s', Ok tt) ->
  exists info arr,
    NextPrime primeInfo newTableSize = Ok info /\
    newTableSize <= prime info /\
    u32 (u32 (m_tableCount s * s_density_factor_denominator)
         / s_density_factor_numerator) <= Z.of_nat (length arr) /\
    m_table s' = Some arr /\ length arr = Z.to_nat (prime info) /\
    m_tableSizeInfo s' = info /\
    m_tableMax s' = new_max info /\
    m_tableCount s' = m_tableCount s /\
    cells s' = cells s /\
    relinked (nodes s) (nodes s') /\
    (forall k, exists o, FindNode k s = (s, Ok o) /\ FindNode k s' = (s', Ok o)).
Proof.
  intros Hreach Hassert Hre.
  destruct (reachable_ok ops c s Hreach) as [[bs Hinv] _].
  destruct (Reallocate_Ok s bs newTableSize s' Hinv Hre)
    as (info & bs' & arr & Hn & _ & Hinv' & Hrel & Harr & Hlen & Hi & Hcnt & Hm & Hcells).
  destruct (NextPrime_loop_Ok _ _ _ _ Hn) as [_ Hle].
  exists info, arr. split; [done|]. split; [done|]. split.
  { unfold Reallocate_assert in Hassert. apply Z.leb_le in Hassert.
    destruct (NextPrime_valid _ _ Hn) as [[Hp _ _] _]. rewrite Hlen. lia. }
  do 7 (split; [done|]).
  intros k. by apply (FindNode_relinked s bs s' bs').
Qed.

(** *** The first Set *)

Lemma Grow_floored_0 : Grow_floored 0 = Z.max 0 s_minimum_allocation.
Proof.
  unfold Grow_floored, Grow_newSize, u32.
  repeat first [rewrite Z.mul_0_l | rewrite Zmod_0_l | rewrite Zdiv_0_l].
  destruct (Z.ltb_spec 0 s_minimum_allocation); lia.
Qed.

(** X8.  The first [Set] on the table the constructor leaves finds
    count and max both zero and grows first: it gets a bucket array of
    the first prime that is at least the minimum allocation, links the
    one node, and returns false with the count at one. *)
Theorem first_Set_allocates (c : gmap ptr Value) (k : Key) (v : Value)
    (s' : State Key Value) (b : bool) :
  Set_ primeInfo k v (New c) = (s', Ok b) ->
  b = false /\
  exists info arr,
    NextPrime primeInfo (Z.max 0 s_minimum_allocation) = Ok info /\
    m_table s' = Some arr /\ length arr = Z.to_nat (prime info) /\
    m_tableSizeInfo s' = info /\
    m_tableMax s' = new_max info /\
    m_tableCount s' = 1 /\
    size (nodes s') = 1%nat.
Proof.
  intros Hset.
  destruct (Set_effect (New c) [] k v s' b (table_inv_New c) Hset)
    as (bs' & Hinv' & _ & Hsome & _ & Hb & Hcap).
  destruct b.
  { destruct Hb as ((p & n & Hp & _) & _). simpl in Hp.
    by rewrite lookup_empty in Hp. }
  split; [done|]. destruct Hb as (_ & _ & Hcnt & Hsz).
  destruct Hcap as [(Hne & _)|(_ & _ & info & Hn & Hi & Hm)]; [done|].
  simpl in Hn. rewrite Grow_floored_0 in Hn.
  destruct (m_table s') as [arr|] eqn:Harr; [|done].
  exists info, arr. split; [done|]. split; [done|].
  split; [rewrite <- Hi; by apply (inv_array_length s' bs')|].
  do 2 (split; [done|]). split; [done|].
  rewrite Hsz. simpl. by rewrite map_size_empty.
Qed.

(** *** The bucket of a key *)

(** X10.  On a table in use [GetIndexForKey] is the hash code, as an
    [unsigned], modulo the number of buckets; it is an index into the
    bucket array, so the read of [m_table[index]] that follows it in
    [FindNode], [Set] and [Remove] is in bounds; and keys that [Equals]
    identifies have the same index. *)
Theorem GetIndexForKey_in_bounds (ops : list (op Key Value))
    (c : gmap ptr Value) (s : State Key Value) (arr : list (option ptr))
    (k : Key) :
  run_ops primeInfo ops (New c) = (s, Ok tt) ->
  m_table s = Some arr ->
  exists i hd,
    GetIndexForKey k s = (s, Ok i) /\
    i = u32 (GetHashCode k) mod Z.of_nat (length arr) /\
    0 <= i < Z.of_nat (length arr) /\
    read_bucket i s = (s, Ok hd) /\
    forall k', Equals k' k = true -> GetIndexForKey k' s = (s, Ok i).
Proof.
  intros Hreach Harr. destruct (reachable_ok ops c s Hreach) as [[bs Hinv] _].
  pose proof (inv_array _ _ Hinv) as Ha. rewrite Harr in Ha.
  destruct Ha as (_ & Hwf & Hv).
  destruct (index_of_range (m_tableSizeInfo s) k Hwf Hv) as [Hmod Hr].
  pose proof (inv_array_length s bs arr Hinv Harr) as Hlen.
  assert (Hp : Z.of_nat (length arr) = prime (m_tableSizeInfo s)).
  { rewrite Hlen. destruct Hwf. lia. }
  destruct (lookup_lt_is_Some_2 arr (Z.to_nat (index_of (m_tableSizeInfo s) k)))
    as [hd Hhd]; [lia|].
  exists (index_of (m_tableSizeInfo s) k), hd.
  split; [done|]. split; [by rewrite Hp|]. split; [lia|]. split.
  - unfold read_bucket. by rewrite Harr, Hhd.
  - intros k' He. unfold GetIndexForKey, bind, get, ret.
    do 2 f_equal. by apply index_of_Equals.
Qed.

(** *** NextPrime as a function of the size *)

Lemma NextPrime_first j a number :
  primeInfo !! j = Some a -> number <= prime a ->
  (forall j' a', (j' < j)%nat -> primeInfo !! j' = Some a' -> prime a' < number) ->
  NextPrime primeInfo number = Ok a.
Proof.
  intros Hj Hle Hmin.
  pose proof (primeInfo_length primeInfo) as Hlen.
  pose proof (NextPrime_loop_spec 27 0 number ltac:(lia)) as H.
  unfold NextPrime.
  destruct (NextPrime_loop primeInfo 27 0 number) as [a2| | |]; try done.
  - destruct H as (j2 & _ & Hj2 & Hle2 & Hmin2).
    destruct (lt_eq_lt_dec j j2) as [[Hlt| ->]|Hgt].
    + pose proof (Hmin2 j a ltac:(lia) Hj). lia.
    + congruence.
    + pose proof (Hmin j2 a2 Hgt Hj2). lia.
  - pose proof (lookup_lt_Some _ _ _ Hj).
    pose proof (H j a ltac:(lia) Hj). lia.
Qed.

Lemma NextPrime_least number a :
  NextPrime primeInfo number = Ok a ->
  exists j, primeInfo !! j = Some a /\ number <= prime a /\
    forall j' a', (j' < j)%nat -> primeInfo !! j' = Some a' -> prime a' < number.
Proof.
  intros Hn. pose proof (primeInfo_length primeInfo) as Hlen.
  pose proof (NextPrime_loop_spec 27 0 number ltac:(lia)) as H.
  unfold NextPrime in Hn. rewrite Hn in H.
  destruct H as (j & _ & Hj & Hle & Hmin). exists j.
  split; [done|]. split; [done|]. intros j' a' Hj'. apply Hmin. lia.
Qed.

(** X11.  [NextPrime] is monotone and idempotent in the size, whatever
    the order of the table: every size between the one asked for and
    the prime returned gets the same entry, the prime itself included;
    a larger size gets a prime that is no smaller, a smaller size one
    that is no larger; and once a size is too large for the table,
    every larger one is. *)
Theorem NextPrime_monotone (number : Z) (a : PrimeInfo) :
  NextPrime primeInfo number = Ok a ->
  NextPrime primeInfo (prime a) = Ok a /\
  (forall m, number <= m <= prime a -> NextPrime primeInfo m = Ok a) /\
  (forall m b, number <= m -> NextPrime primeInfo m = Ok b -> prime a <= prime b) /\
  (forall m, m <= number ->
     exists b, NextPrime primeInfo m = Ok b /\ prime b <= prime a) /\
  (forall m, prime a < m -> NextPrime primeInfo m <> Ok a).
Proof.
  intros Hn. destruct (NextPrime_least number a Hn) as (j & Hj & Hle & Hmin).
  assert (Hbetween : forall m, number <= m <= prime a -> NextPrime primeInfo m = Ok a).
  { intros m Hm. apply (NextPrime_first j); [done|lia|].
    intros j' a' Hj' Ha'. pose proof (Hmin j' a' Hj' Ha'). lia. }
  split; [apply Hbetween; lia|]. split; [done|]. split; [|split].
  - intros m b Hm Hb. destruct (NextPrime_least m b Hb) as (jb & Hjb & Hleb & Hminb).
    destruct (lt_eq_lt_dec j jb) as [[Hlt|Heq]|Hgt].
    + pose proof (Hminb j a Hlt Hj). lia.
    + assert (a = b) as -> by congruence. lia.
    + pose proof (Hmin jb b Hgt Hjb). lia.
  - intros m Hm. destruct (NextPrime_total m) as [[b Hb]|Hb].
    + exists b. split; [done|].
      destruct (NextPrime_least m b Hb) as (jb & Hjb & Hleb & Hminb).
      destruct (lt_eq_lt_dec j jb) as [[Hlt|Heq]|Hgt].
      * pose proof (Hminb j a Hlt Hj). lia.
      * assert (a = b) as -> by congruence. lia.
      * pose proof (Hmin jb b Hgt Hjb). lia.
    + pose proof (primeInfo_length primeInfo) as Hlen.
      pose proof (NextPrime_loop_spec 27 0 m ltac:(lia)) as H.
      unfold NextPrime in Hb. rewrite Hb in H.
      pose proof (lookup_lt_Some _ _ _ Hj).
      pose proof (H j a ltac:(lia) Hj). lia.
  - intros m Hm Hb. destruct (NextPrime_loop_Ok _ _ _ _ Hb). lia.
Qed.

(** *** No fault, no endless walk *)

(** X12.  On every table the operations produce, each operation ends,
    and ends without a fault: no read or write through [NULL], of a
    freed node or outside the bucket array, no chain walk without end.
    [Lookup], [LookupPointer] and [RemoveAll] return; [Remove] returns
    when there is a bucket array; [Set], [Grow] and [Reallocate] return
    or end in [NoMemory]. *)
Theorem operations_are_safe (ops : list (op Key Value)) (c : gmap ptr Value)
    (s : State Key Value) :
  run_ops primeInfo ops (New c) = (s, Ok tt) ->
  (forall k v, (exists s' b, Set_ primeInfo k v s = (s', Ok b)) \/
               (exists s', Set_ primeInfo k v s = (s', NoMemory))) /\
  (forall k pVal, exists s' b, Lookup k pVal s = (s', Ok b)) /\
  (forall k, exists o, LookupPointer k s = (s, Ok o)) /\
  (forall k, m_table s <> None -> exists s' b, Remove k s = (s', Ok b)) /\
  (exists s', RemoveAll s = (s', Ok tt)) /\
  (forall n, (exists s', Reallocate primeInfo n s = (s', Ok tt)) \/
             Reallocate primeInfo n s = (s, NoMemory)) /\
  ((exists s', Grow primeInfo s = (s', Ok tt)) \/ Grow primeInfo s = (s, NoMemory)).
Proof.
  intros Hreach. destruct (reachable_ok ops c s Hreach) as [[bs Hinv] _].
  split; [|split; [|split; [|split; [|split; [|split]]]]].
  - intros k v. destruct (Set_cases s bs k v Hinv)
      as [[_ Hf]|(s1 & bs1 & arr & hd & l & _ & _ & _ & _ & _ & _ & _ & Hcase)].
    + right. eauto.
    + destruct Hcase as [(p & n & _ & _ & Hs & _)|(_ & Hal)].
      * left. eauto.
      * destruct (Alloc (nodes s1)) as [p|].
        -- destruct Hal as (_ & Hs & _). left. eauto.
        -- right. eauto.
  - intros k pVal. destruct (FindNode_spec s bs k Hinv) as (o & Hrun & Ho).
    destruct o as [p|].
    + destruct (proj1 (Ho p) eq_refl) as (n & Hp & He).
      destruct (Lookup_hit s bs k p n Hinv) as [H1 H2]; [by exists n|done|].
      destruct pVal as [cell|]; eauto.
    + exists s, false. apply (Lookup_miss s bs); [done|].
      intros q Hq. by apply Ho in Hq.
  - intros k. destruct (FindNode_spec s bs k Hinv) as (o & Hrun & _). eauto.
  - intros k Hsome. destruct (m_table s) as [arr|] eqn:Harr; [|done].
    destruct (Remove_cases s bs arr k Hinv Harr)
      as [[_ Hr]|(p & n & l1 & l2 & h1 & hd' & _ & _ & _ & _ & Hr & _)]; eauto.
  - exists (New (cells s)). by apply (RemoveAll_spec s bs).
  - intros n. destruct (Reallocate_total s bs n Hinv) as [Hf|(s' & _ & Hr & _)];
      [by right | left; eauto].
  - destruct (Grow_total s bs Hinv) as [Hf|(s' & _ & Hr & _)];
      [by right | left; eauto].
Qed.

(** *** Set and Remove undo each other *)

(** X14.  Inserting a key that was not mapped and removing it again
    gives back the table as a mapping: the nodes that were there are
    there, each at its address with its key and value, the new node is
    freed, the count is the one before, and [FindNode] answers as before
    for every key.  The bucket array may have grown in between; it does
    not shrink back. *)
Theorem Set_then_Remove_restores (ops : list (op Key Value))
    (c : gmap ptr Value) (s s1 s2 : State Key Value) (k : Key) (v : Value)
    (b b' : bool) :
  run_ops primeInfo ops (New c) = (s, Ok tt) ->
  Lookup k None s = (s, Ok false) ->
  Set_ primeInfo k v s = (s1, Ok b) ->
  Remove k s1 = (s2, Ok b') ->
  b = false /\ b' = true /\
  relinked (nodes s) (nodes s2) /\
  m_tableCount s2 = m_tableCount s /\
  cells s2 = cells s /\
  (forall k', exists o, FindNode k' s = (s, Ok o) /\ FindNode k' s2 = (s2, Ok o)).
Proof.
  intros Hreach Hlook Hset Hrem.
  destruct (reachable_ok ops c s Hreach) as [[bs Hinv] _].
  assert (Habs : forall q, ~ maps_at s k q).
  { intros q Hq. pose proof Hq as (n & Hn & _).
    destruct (Lookup_hit s bs k q n Hinv Hq Hn) as [H1 _]. congruence. }
  destruct (Set_effect s bs k v s1 b Hinv Hset)
    as (bs1 & Hinv1 & Hcells1 & _ & Hkeep1 & Hb1 & _).
  destruct b.
  { destruct Hb1 as ((p & Hp) & _). by destruct (Habs p). }
  destruct Hb1 as (_ & (p & n' & Hps & Hp1 & Hkey & _ & Hdom1) & Hcnt1 & _).
  assert (Hm1 : maps_at s1 k p).
  { exists n'. split; [done|]. rewrite Hkey. apply Equals_refl. }
  destruct (Remove_effect s1 bs1 k s2 b' Hinv1 Hrem)
    as (bs2 & arr & arr' & Hinv2 & _ & _ & _ & _ & _ & Hcells2 & Hold2 & Hkeep2 & _ & Hb2).
  destruct b'; [|destruct Hb2 as (_ & Hno); by destruct (Hno p)].
  destruct Hb2 as ((p2 & Hm2 & Hgone) & Hcnt2 & _).
  assert (p2 = p) as -> by (by apply (maps_at_unique s1 bs1 k)).
  assert (Hrel : relinked (nodes s) (nodes s2)).
  { intros q. destruct (nodes s !! q) as [n|] eqn:Hq.
    - destruct (Hkeep1 q n Hq) as (n1 & Hq1 & Hk1 & Hv1).
      assert (Hne : Equals k (m_key n) = false).
      { destruct (Equals k (m_key n)) eqn:He; [|done].
        destruct (Habs q). by exists n. }
      rewrite Hne in Hv1.
      destruct (Hkeep2 q n1 Hq1) as (n2 & Hq2 & Hk2 & Hv2); [by rewrite Hk1|].
      rewrite Hq2. split; congruence.
    - destruct (nodes s2 !! q) as [n2|] eqn:Hq2; [|done].
      destruct (Hold2 q n2 Hq2) as (n1 & Hq1 & _).
      assert (Hqp : q <> p) by (intros ->; congruence).
      destruct (Hdom1 q Hqp) as [n Hn]; [by eauto|]. congruence. }
  split; [done|]. split; [done|]. split; [done|]. split; [|split].
  - rewrite Hcnt2, Hcnt1, u32_pred.
    replace (m_tableCount s + 1 - 1) with (m_tableCount s) by lia.
    rewrite (inv_count _ _ Hinv). unfold u32. apply Z.mod_mod. lia.
  - congruence.
  - intros k'. by apply (FindNode_relinked s bs s2 bs2).
Qed.

End Proofs.

(** ** The instantiation satisfies the requirements *)

#[export] Instance ZKeyFuncsLaws : @KeyFuncsLaws Z Sample.ZKeyFuncs.
Proof.
  split; simpl.
  - apply Z.eqb_refl.
  - intros a b. rewrite !Z.eqb_eq. congruence.
  - intros a b c. rewrite !Z.eqb_eq. congruence.
  - intros a b. rewrite Z.eqb_eq. congruence.
Qed.

Lemma Sample_primeInfo_checked : forallb magic_check Sample.primeInfo = true.
Proof. vm_compute. reflexivity. Qed.

#[export] Instance SamplePrimeTableLaws : PrimeTableLaws Sample.primeInfo.
Proof.
  split; [reflexivity|].
  apply Forall_forall. intros p Hin. apply list_elem_of_In in Hin.
  pose proof (proj1 (forallb_forall _ _) Sample_primeInfo_checked p Hin) as Hp.
  split; [by apply magic_check_wf | by apply magic_check_valid].
Qed.

#[export] Instance FreshAllocatorLaws : @AllocatorLaws Z Z Sample.FreshAllocator.
Proof.
  split. simpl. intros h p [= <-]. apply not_elem_of_dom. apply is_fresh.
Qed.

(** ** The size computation of Grow, in general and for the default
    behavior *)

Lemma default_overflow_reported count :
  is_u32 count ->
  @Grow_overflows Sample.DefaultBehavior count = true <->
  @Grow_floored Sample.DefaultBehavior count < count.
Proof.
  unfold is_u32, Grow_overflows, Grow_floored, Grow_newSize. simpl.
  rewrite !u32_div by lia. unfold u32. change (2 ^ 32) with 4294967296.
  intros Hc. rewrite orb_true_iff, !Z.leb_le. split.
  - intros Hov.
    assert (Hns : ((count * 3) mod 4294967296 / 2 * 4) mod 4294967296 / 3 < count
                  /\ 7 < count).
    { pose proof (Z.mod_pos_bound ((count * 3) mod 4294967296 / 2 * 4)
                    4294967296 ltac:(lia)).
      assert (count * 3 < 4294967296 \/ 4294967296 <= count * 3)
        as [Hlt|Hge] by lia.
      - destruct Hov as [Hov|Hov]; [lia|].
        rewrite (Z.mod_small (count * 3)) by lia.
        split; Z.div_mod_to_equations; lia.
      - split; [|lia]. apply Z.div_lt_upper_bound; lia. }
    destruct (Z.ltb_spec
      (((count * 3) mod 4294967296 / 2 * 4) mod 4294967296 / 3) 7); lia.
  - intros Hlt.
    assert (count * 3 < 4294967296 \/ 4294967296 <= count * 3)
      as [H1|H1] by lia; [|by left].
    assert ((count * 3) / 2 * 4 < 4294967296 \/ 4294967296 <= (count * 3) / 2 * 4)
      as [H2|H2] by lia; [|by right].
    exfalso. rewrite (Z.mod_small (count * 3)) in Hlt by lia.
    rewrite (Z.mod_small ((count * 3) / 2 * 4)) in Hlt
      by (split; [Z.div_mod_to_equations; lia | done]).
    destruct (Z.ltb_spec ((count * 3) / 2 * 4 / 3) 7);
      Z.div_mod_to_equations; lia.
Qed.

(** X16.  The size [Grow] asks for.  [Grow] takes count * growth /
    density in [unsigned] arithmetic, left to right, and the minimum
    allocation when that is more; where no product wraps, this is the
    size in exact integer arithmetic.  It calls the hook exactly when
    the size it arrived at is less than the count, and hands the size to
    [Reallocate] unchanged otherwise.  With growth 3/2 and density 3/4
    this test holds exactly when a product wrapped: no overflow goes
    unreported. *)
Theorem Grow_size_and_check :
  (forall (Key Value : Type) (KF : KeyFuncs Key) (BH : Behavior)
          (IA : IAllocator (Node Key Value)) (primeInfo : list PrimeInfo)
          (s : State Key Value),
     Grow primeInfo s =
     if Grow_floored (m_tableCount s) <? m_tableCount s then (s, NoMemory)
     else Reallocate primeInfo (Grow_floored (m_tableCount s)) s) /\
  (forall (BH : Behavior) count,
     Grow_floored count = Z.max (Grow_newSize count) s_minimum_allocation) /\
  (forall (BH : Behavior) count,
     0 <= count ->
     0 <= s_growth_factor_numerator -> 0 < s_growth_factor_denominator ->
     0 <= s_density_factor_denominator -> 0 < s_density_factor_numerator ->
     Grow_overflows count = false -> Grow_newSize count = Grow_exact count) /\
  (forall count, is_u32 count ->
     @Grow_overflows Sample.DefaultBehavior count = true <->
     @Grow_floored Sample.DefaultBehavior count < count).
Proof.
  split; [|split; [|split]].
  - intros. apply Grow_eq.
  - intros BH count. unfold Grow_floored.
    destruct (Z.ltb_spec (Grow_newSize count) s_minimum_allocation); lia.
  - intros BH count. apply Grow_newSize_exact.
  - apply default_overflow_reported.
Qed.

(** C7 (the failing case).  Growth 2/1 and density 4/8, which the
    static asserts of the constructor admit, at the count 366522710,
    the threshold of the largest bucket array: the product by the
    density denominator wraps, the size that comes out, 392349016, is
    not less than the count, and [Grow] goes on to [Reallocate] with it
    without calling the hook, for the same 733045421 buckets.  The size
    is below what the [assert] at the head of [Reallocate] demands
    (366522710 * 8 / 4 = 733045420): the test that is there to handle
    the overflow has missed it. *)
Lemma Grow_overflow_unreported :
  @Grow_overflows Sample.DoublingBehavior 366522710 = true /\
  @Grow_exact Sample.DoublingBehavior 366522710 = 1466090840 /\
  @Grow_floored Sample.DoublingBehavior 366522710 = 392349016 /\
  NextPrime Sample.primeInfo 392349016
    = Ok (mkPrimeInfo 733045421 0x5dbec447 28) /\
  (@Grow Z Z Sample.ZKeyFuncs Sample.DoublingBehavior Sample.FreshAllocator
     Sample.primeInfo (Sample.counted 366522710)).2 = Ok tt /\
  (forall s : State Z Z,
     m_tableCount s = 366522710 ->
     @Grow Z Z Sample.ZKeyFuncs Sample.DoublingBehavior Sample.FreshAllocator
       Sample.primeInfo s
     = @Reallocate Z Z Sample.ZKeyFuncs Sample.DoublingBehavior
         Sample.FreshAllocator Sample.primeInfo 392349016 s /\
     @Reallocate_assert Z Z Sample.DoublingBehavior 392349016 s = false).
Proof.
  assert (Hf : @Grow_floored Sample.DoublingBehavior 366522710 = 392349016)
    by (vm_compute; reflexivity).
  assert (Hn : NextPrime Sample.primeInfo 392349016
               = Ok (mkPrimeInfo 733045421 0x5dbec447 28))
    by (vm_compute; reflexivity).
  split; [vm_compute; reflexivity|]. split; [vm_compute; reflexivity|].
  split; [exact Hf|]. split; [exact Hn|]. split.
  - rewrite Grow_eq.
    change (m_tableCount (Sample.counted 366522710)) with 366522710.
    rewrite Hf. change (392349016 <? 366522710) with false. cbv iota.
    rewrite (Reallocate_no_array (KF:=Sample.ZKeyFuncs)
               (BH:=Sample.DoublingBehavior) (IA:=Sample.FreshAllocator)
               Sample.primeInfo
               (Sample.counted 366522710) _ _ eq_refl Hn eq_refl).
    reflexivity.
  - intros s Hs. split.
    + rewrite Grow_eq, Hs, Hf. reflexivity.
    + unfold Reallocate_assert. rewrite Hs. vm_compute. reflexivity.
Qed.

(** ** The test on the constants of a descriptor *)

(** X9.  A descriptor that passes the test on its three constants
    (prime, magic and shift are [unsigned] and in range, and magic times
    prime overshoots [2^(32+shift)] by at most [2^shift]) divides every
    32-bit numerator exactly: [magicNumberDivide] is the quotient,
    [magicNumberRem] the remainder, below the prime. *)
Theorem magic_check_sound (p : PrimeInfo) (n : Z) :
  magic_check p = true -> is_u32 n ->
  magicNumberDivide n p = n / prime p /\
  magicNumberRem n p = n mod prime p /\
  0 <= magicNumberRem n p < prime p.
Proof.
  intros Hc Hn.
  pose proof (magic_check_wf p Hc) as Hwf.
  pose proof (magic_check_valid p Hc) as Hv.
  split; [by apply magicNumberDivide_div|].
  rewrite (magicNumberRem_mod p n Hwf Hv Hn). split; [done|].
  apply Z.mod_pos_bound. apply Hwf.
Qed.

(** ** Growth makes room under the default behavior *)

(** With growth 3/2, density 3/4 and at least 7 buckets, on a table
    whose primes can be multiplied by 3 as [unsigned], the threshold
    after a growth is above the count. *)
Lemma default_growth_makes_room (primeInfo : list PrimeInfo) :
  Forall (fun p => prime p * 3 < 2 ^ 32) primeInfo ->
  @growth_makes_room Sample.DefaultBehavior primeInfo.
Proof.
  intros HF count info Hc Hfl Hn. apply Z.ltb_ge in Hfl.
  unfold NextPrime in Hn. apply NextPrime_loop_Ok in Hn as [Hin Hle].
  rewrite Forall_forall in HF. specialize (HF info Hin). simpl in HF.
  destruct (@Grow_overflows Sample.DefaultBehavior count) eqn:Hov.
  { apply (default_overflow_reported count Hc) in Hov. lia. }
  destruct Hc as [Hc0 Hc1].
  pose proof (@Grow_newSize_exact Sample.DefaultBehavior count Hc0
                ltac:(simpl; lia) ltac:(simpl; lia) ltac:(simpl; lia)
                ltac:(simpl; lia) Hov) as Hex.
  unfold Grow_floored in Hle. rewrite Hex in Hle.
  unfold Grow_exact, new_max, u32 in *.
  cbn [s_growth_factor_numerator s_growth_factor_denominator
       s_density_factor_numerator s_density_factor_denominator
       s_minimum_allocation Sample.DefaultBehavior] in *.
  change (2 ^ 32) with 4294967296 in *.
  assert (H7 : 7 <= prime info /\ count * 3 / 2 * 4 / 3 <= prime info).
  { destruct (Z.ltb_spec (count * 3 / 2 * 4 / 3) 7); lia. }
  rewrite (Z.mod_small (prime info * 3)) by lia.
  rewrite Z.mod_small by (Z.div_mod_to_equations; lia).
  Z.div_mod_to_equations; lia.
Qed.

Lemma Sample_primes_small :
  Forall (fun p => prime p * 3 < 2 ^ 32) Sample.primeInfo.
Proof.
  apply Forall_forall. intros p Hp.
  repeat (apply elem_of_cons in Hp as [->|Hp]; [simpl; lia|]).
  by apply elem_of_nil in Hp.
Qed.

Lemma TwoNodeAllocatorLaws : @AllocatorLaws Z Z Sample.TwoNodeAllocator.
Proof.
  split. simpl. intros h p. destruct (decide (size h < 2)%nat); [|done].
  intros [= <-]. apply not_elem_of_dom. apply is_fresh.
Qed.

(** ** Instances of the theorems on the sample table *)

Import Sample.

(** The largest descriptor of the table divides [2^32 - 1]. *)
Lemma magicNumber_correct_witness :
  magicNumberDivide 4294967295 (mkPrimeInfo 733045421 0x5dbec447 28)
    = Z.shiftr (4294967295 * 0x5dbec447) (32 + 28) /\
  magicNumberDivide 4294967295 (mkPrimeInfo 733045421 0x5dbec447 28)
    = 4294967295 / 733045421 /\
  magicNumberRem 4294967295 (mkPrimeInfo 733045421 0x5dbec447 28)
    = 4294967295
      - magicNumberDivide 4294967295 (mkPrimeInfo 733045421 0x5dbec447 28)
        * 733045421 /\
  magicNumberRem 4294967295 (mkPrimeInfo 733045421 0x5dbec447 28)
    = 4294967295 mod 733045421.
Proof.
  apply (magicNumber_correct (mkPrimeInfo 733045421 0x5dbec447 28) 4294967295).
  - apply magic_check_wf. vm_compute. reflexivity.
  - apply magic_check_valid. vm_compute. reflexivity.
  - unfold is_u32. lia.
Defined.

(** The seventh insertion grows the table from 9 to 23 buckets, and the
    key is found with its value. *)
Lemma Set_then_Lookup_witness :
  Lookup 7 None (Set_ primeInfo 7 70 (after six_sets)).1
    = ((Set_ primeInfo 7 70 (after six_sets)).1, Ok true) /\
  Lookup 7 (Some 1%positive) (Set_ primeInfo 7 70 (after six_sets)).1
    = (set_cells (<[1%positive := 70]>
                    (cells (Set_ primeInfo 7 70 (after six_sets)).1))
         (Set_ primeInfo 7 70 (after six_sets)).1, Ok true).
Proof.
  assert (H : run_ops primeInfo six_sets (New ∅) = (after six_sets, Ok tt))
    by (vm_compute; reflexivity).
  assert (H' : Set_ primeInfo 7 70 (after six_sets)
               = ((Set_ primeInfo 7 70 (after six_sets)).1, Ok false))
    by (vm_compute; reflexivity).
  exact (Set_then_Lookup primeInfo six_sets ∅ (after six_sets) _ 7 70 false
           1%positive H H').
Defined.

Lemma count_is_number_of_keys_witness :
  exists s1,
    run_ops primeInfo [OpSet 1 10; OpSet 10 100; OpSet 1 11] (New ∅)
      = (s1, Ok tt) /\
    (forall p q n m, nodes s1 !! p = Some n -> nodes s1 !! q = Some m ->
       Equals (m_key n) (m_key m) = true -> p = q) /\
    (forall p n, nodes s1 !! p = Some n ->
       FindNode (m_key n) s1 = (s1, Ok (Some p))) /\
    (forall k p, FindNode k s1 = (s1, Ok (Some p)) -> maps_at s1 k p) /\
    m_tableCount s1 = u32 (Z.of_nat (size (nodes s1))) /\
    (Z.of_nat (length mixed_ops) < 2 ^ 32 ->
     m_tableCount s1 = Z.of_nat (size (nodes s1))).
Proof.
  assert (H : run_ops primeInfo mixed_ops (New ∅) = (after mixed_ops, Ok tt))
    by (vm_compute; reflexivity).
  exact (count_is_number_of_keys primeInfo mixed_ops ∅ (after mixed_ops) H
           [OpSet 1 10; OpSet 10 100; OpSet 1 11] [OpRemove 10] eq_refl).
Defined.

Lemma Grow_preserves_contents_witness :
  relinked (nodes (after six_sets)) (nodes (Grow primeInfo (after six_sets)).1) /\
  m_tableCount (Grow primeInfo (after six_sets)).1 = m_tableCount (after six_sets) /\
  cells (Grow primeInfo (after six_sets)).1 = cells (after six_sets) /\
  (forall k, exists o,
     FindNode k (after six_sets) = (after six_sets, Ok o) /\
     FindNode k (Grow primeInfo (after six_sets)).1
       = ((Grow primeInfo (after six_sets)).1, Ok o)) /\
  (forall k, (Lookup k None (Grow primeInfo (after six_sets)).1).2
             = (Lookup k None (after six_sets)).2) /\
  (forall k cell,
     (Lookup k (Some cell) (Grow primeInfo (after six_sets)).1).2
       = (Lookup k (Some cell) (after six_sets)).2 /\
     cells (Lookup k (Some cell) (Grow primeInfo (after six_sets)).1).1
       = cells (Lookup k (Some cell) (after six_sets)).1).
Proof.
  assert (H : run_ops primeInfo six_sets (New ∅) = (after six_sets, Ok tt))
    by (vm_compute; reflexivity).
  assert (H' : Grow primeInfo (after six_sets)
               = ((Grow primeInfo (after six_sets)).1, Ok tt))
    by (vm_compute; reflexivity).
  exact (Grow_preserves_contents primeInfo six_sets ∅ (after six_sets) _ H H').
Defined.


Lemma NextPrime_first_fit_witness :
  match NextPrime primeInfo 100 with
  | Ok info =>
      exists j, primeInfo !! j = Some info /\ 100 <= prime info /\
                forall j' info', (j' < j)%nat ->
                  primeInfo !! j' = Some info' -> prime info' < 100
  | NoMemory => forall info', info' ∈ primeInfo -> prime info' < 100
  | _ => False
  end.
Proof. exact (NextPrime_first_fit primeInfo 100 eq_refl). Defined.

(** ** The scenarios of the specification on the sample table *)

(** [Set(5, a)] then [Set(5, b)] return false and true, [Lookup(5)]
    yields [b], and the count stays at one. *)
Example set_twice :
  let r1 := Set_ primeInfo 5 1 (New ∅) in
  let r2 := Set_ primeInfo 5 2 r1.1 in
  let r3 := Lookup 5 (Some 1%positive) r2.1 in
  r1.2 = Ok false /\ r2.2 = Ok true /\
  r3.2 = Ok true /\ cells r3.1 !! 1%positive = Some 2 /\
  m_tableCount r3.1 = 1.
Proof. vm_compute. repeat split; reflexivity. Qed.

(** Inserting the keys 1 to 20 takes the bucket array through the sizes
    9, 23 and 59, and every key keeps its value. *)
Example capacities :
  let keys := Z.of_nat <$> seq 1 20 in
  let sets := (fun k => OpSet k (k * k)) <$> keys in
  prime (m_tableSizeInfo (after (take 6 sets))) = 9 /\
  prime (m_tableSizeInfo (after (take 7 sets))) = 23 /\
  prime (m_tableSizeInfo (after (take 17 sets))) = 23 /\
  prime (m_tableSizeInfo (after (take 18 sets))) = 59 /\
  m_tableCount (after sets) = 20 /\
  forallb (fun k =>
    match Lookup k (Some 1%positive) (after sets) with
    | (s, Ok true) => bool_decide (cells s !! 1%positive = Some (k * k))
    | _ => false
    end) keys = true.
Proof. vm_compute. repeat split; reflexivity. Qed.

(** [Remove] on the new table faults, and so does it after [RemoveAll]. *)
Example remove_without_array :
  (Remove 5 (New (Key:=Z) (∅ : gmap ptr Z))).2 = Fault /\
  (Remove 5 (RemoveAll (after six_sets)).1).2 = Fault.
Proof. vm_compute. split; reflexivity. Qed.

(** ** Instances of the further properties on the sample table *)


(** [Set 3 33] on the six keys finds the key 3: true, and the count
    stays at six although the table grows. *)
Lemma Set_reports_presence_witness :
  Lookup 3 None (after six_sets) = (after six_sets, Ok true) /\
  (exists n, GetCount (after six_sets) = (after six_sets, Ok n) /\
             GetCount (Set_ primeInfo 3 33 (after six_sets)).1
               = ((Set_ primeInfo 3 33 (after six_sets)).1, Ok n)) /\
  size (nodes (Set_ primeInfo 3 33 (after six_sets)).1)
    = size (nodes (after six_sets)) /\
  cells (Set_ primeInfo 3 33 (after six_sets)).1 = cells (after six_sets).
Proof.
  assert (H : run_ops primeInfo six_sets (New ∅) = (after six_sets, Ok tt))
    by (vm_compute; reflexivity).
  assert (H' : Set_ primeInfo 3 33 (after six_sets)
               = ((Set_ primeInfo 3 33 (after six_sets)).1, Ok true))
    by (vm_compute; reflexivity).
  exact (Set_reports_presence primeInfo six_sets ∅ (after six_sets) _ 3 33 true
           H H').
Defined.

(** [Remove 2] on the six keys. *)
Lemma Remove_reports_presence_witness :
  Lookup 2 None (after six_sets) = (after six_sets, Ok true) /\
  (forall pVal, Lookup 2 pVal (Remove 2 (after six_sets)).1
                = ((Remove 2 (after six_sets)).1, Ok false)) /\
  (exists n, GetCount (after six_sets) = (after six_sets, Ok n) /\
             GetCount (Remove 2 (after six_sets)).1
               = ((Remove 2 (after six_sets)).1, Ok (u32 (n - 1)))) /\
  size (nodes (after six_sets)) = S (size (nodes (Remove 2 (after six_sets)).1)) /\
  (exists arr arr', m_table (after six_sets) = Some arr /\
                    m_table (Remove 2 (after six_sets)).1 = Some arr' /\
                    length arr' = length arr) /\
  m_tableSizeInfo (Remove 2 (after six_sets)).1 = m_tableSizeInfo (after six_sets) /\
  m_tableMax (Remove 2 (after six_sets)).1 = m_tableMax (after six_sets) /\
  cells (Remove 2 (after six_sets)).1 = cells (after six_sets) /\
  (true = false -> (Remove 2 (after six_sets)).1 = after six_sets).
Proof.
  assert (H : run_ops primeInfo six_sets (New ∅) = (after six_sets, Ok tt))
    by (vm_compute; reflexivity).
  assert (H' : Remove 2 (after six_sets)
               = ((Remove 2 (after six_sets)).1, Ok true))
    by (vm_compute; reflexivity).
  exact (Remove_reports_presence primeInfo six_sets ∅ (after six_sets) _ 2 true
           H H').
Defined.

(** [RemoveAll] on the six keys. *)
Lemma RemoveAll_resets_witness :
  RemoveAll (after six_sets) = (New (cells (after six_sets)), Ok tt) /\
  nodes (New (Key:=Z) (cells (after six_sets))) = ∅ /\
  GetCount (New (Key:=Z) (cells (after six_sets)))
    = (New (cells (after six_sets)), Ok 0) /\
  (forall k pVal, Lookup k pVal (New (cells (after six_sets)))
                  = (New (cells (after six_sets)), Ok false)) /\
  RemoveAll (New (Key:=Z) (cells (after six_sets)))
    = (New (cells (after six_sets)), Ok tt).
Proof.
  assert (H : run_ops primeInfo six_sets (New ∅) = (after six_sets, Ok tt))
    by (vm_compute; reflexivity).
  exact (RemoveAll_resets primeInfo six_sets ∅ (after six_sets) H).
Defined.


(** Six keys in nine buckets: the count is at the threshold, 3/4 of 9. *)
Lemma load_stays_below_threshold_witness :
  m_tableCount (after six_sets) = Z.of_nat (size (nodes (after six_sets))) /\
  m_tableCount (after six_sets) <= m_tableMax (after six_sets) /\
  (forall arr, m_table (after six_sets) = Some arr ->
     m_tableMax (after six_sets) = new_max (m_tableSizeInfo (after six_sets)) /\
     length arr = Z.to_nat (prime (m_tableSizeInfo (after six_sets)))).
Proof.
  assert (H : run_ops primeInfo six_sets (New ∅) = (after six_sets, Ok tt))
    by (vm_compute; reflexivity).
  exact (load_stays_below_threshold primeInfo six_sets ∅ (after six_sets)
           (default_growth_makes_room primeInfo Sample_primes_small) H).
Defined.

(** [Reallocate(100)] on the six keys, where the [assert] asks for at
    least 6 * 4 / 3 = 8: 131 buckets. *)
Lemma Reallocate_capacity_witness :
  exists info arr,
    NextPrime primeInfo 100 = Ok info /\
    100 <= prime info /\
    u32 (u32 (m_tableCount (after six_sets) * s_density_factor_denominator)
         / s_density_factor_numerator) <= Z.of_nat (length arr) /\
    m_table (Reallocate primeInfo 100 (after six_sets)).1 = Some arr /\
    length arr = Z.to_nat (prime info) /\
    m_tableSizeInfo (Reallocate primeInfo 100 (after six_sets)).1 = info /\
    m_tableMax (Reallocate primeInfo 100 (after six_sets)).1 = new_max info /\
    m_tableCount (Reallocate primeInfo 100 (after six_sets)).1
      = m_tableCount (after six_sets) /\
    cells (Reallocate primeInfo 100 (after six_sets)).1 = cells (after six_sets) /\
    relinked (nodes (after six_sets))
             (nodes (Reallocate primeInfo 100 (after six_sets)).1) /\
    (forall k, exists o,
       FindNode k (after six_sets) = (after six_sets, Ok o) /\
       FindNode k (Reallocate primeInfo 100 (after six_sets)).1
         = ((Reallocate primeInfo 100 (after six_sets)).1, Ok o)).
Proof.
  assert (H : run_ops primeInfo six_sets (New ∅) = (after six_sets, Ok tt))
    by (vm_compute; reflexivity).
  assert (Ha : Reallocate_assert 100 (after six_sets) = true)
    by (vm_compute; reflexivity).
  assert (H' : Reallocate primeInfo 100 (after six_sets)
               = ((Reallocate primeInfo 100 (after six_sets)).1, Ok tt))
    by (vm_compute; reflexivity).
  exact (Reallocate_capacity primeInfo six_sets ∅ (after six_sets) _ 100
           H Ha H').
Defined.

(** The first [Set] of the sample table: nine buckets, threshold six. *)
Lemma first_Set_allocates_witness :
  false = false /\
  exists info arr,
    NextPrime primeInfo (Z.max 0 s_minimum_allocation) = Ok info /\
    m_table (Set_ primeInfo 5 1 (New ∅)).1 = Some arr /\
    length arr = Z.to_nat (prime info) /\
    m_tableSizeInfo (Set_ primeInfo 5 1 (New ∅)).1 = info /\
    m_tableMax (Set_ primeInfo 5 1 (New ∅)).1 = new_max info /\
    m_tableCount (Set_ primeInfo 5 1 (New ∅)).1 = 1 /\
    size (nodes (Set_ primeInfo 5 1 (New ∅)).1) = 1%nat.
Proof.
  assert (H : Set_ primeInfo 5 1 (New ∅)
              = ((Set_ primeInfo 5 1 (New ∅)).1, Ok false))
    by (vm_compute; reflexivity).
  exact (first_Set_allocates primeInfo ∅ 5 1 _ false H).
Defined.

(** The first descriptor of the table divides [2^32 - 1] by 9. *)
Lemma magic_check_sound_witness :
  magicNumberDivide 4294967295 (mkPrimeInfo 9 0x38e38e39 1) = 4294967295 / 9 /\
  magicNumberRem 4294967295 (mkPrimeInfo 9 0x38e38e39 1) = 4294967295 mod 9 /\
  0 <= magicNumberRem 4294967295 (mkPrimeInfo 9 0x38e38e39 1) < 9.
Proof.
  assert (H : magic_check (mkPrimeInfo 9 0x38e38e39 1) = true)
    by (vm_compute; reflexivity).
  assert (H' : is_u32 4294967295) by (unfold is_u32; lia).
  exact (magic_check_sound (mkPrimeInfo 9 0x38e38e39 1) 4294967295 H H').
Defined.

(** The key 10 in the table of nine buckets. *)
Lemma GetIndexForKey_in_bounds_witness :
  exists i hd,
    GetIndexForKey 10 (after six_sets) = (after six_sets, Ok i) /\
    i = u32 (GetHashCode 10)
        mod Z.of_nat (length (default [] (m_table (after six_sets)))) /\
    0 <= i < Z.of_nat (length (default [] (m_table (after six_sets)))) /\
    read_bucket i (after six_sets) = (after six_sets, Ok hd) /\
    forall k', Equals k' 10 = true ->
      GetIndexForKey k' (after six_sets) = (after six_sets, Ok i).
Proof.
  assert (H : run_ops primeInfo six_sets (New ∅) = (after six_sets, Ok tt))
    by (vm_compute; reflexivity).
  assert (H' : m_table (after six_sets)
               = Some (default [] (m_table (after six_sets))))
    by (vm_compute; reflexivity).
  exact (GetIndexForKey_in_bounds primeInfo six_sets ∅ (after six_sets) _ 10
           H H').
Defined.

(** Every size from 100 to 131 gets the prime 131. *)
Lemma NextPrime_monotone_witness :
  NextPrime primeInfo (prime (mkPrimeInfo 131 0xfa232cf3 7))
    = Ok (mkPrimeInfo 131 0xfa232cf3 7) /\
  (forall m, 100 <= m <= prime (mkPrimeInfo 131 0xfa232cf3 7) ->
     NextPrime primeInfo m = Ok (mkPrimeInfo 131 0xfa232cf3 7)) /\
  (forall m b, 100 <= m -> NextPrime primeInfo m = Ok b ->
     prime (mkPrimeInfo 131 0xfa232cf3 7) <= prime b) /\
  (forall m, m <= 100 ->
     exists b, NextPrime primeInfo m = Ok b /\
               prime b <= prime (mkPrimeInfo 131 0xfa232cf3 7)) /\
  (forall m, prime (mkPrimeInfo 131 0xfa232cf3 7) < m ->
     NextPrime primeInfo m <> Ok (mkPrimeInfo 131 0xfa232cf3 7)).
Proof.
  assert (H : NextPrime primeInfo 100 = Ok (mkPrimeInfo 131 0xfa232cf3 7))
    by (vm_compute; reflexivity).
  exact (NextPrime_monotone primeInfo 100 (mkPrimeInfo 131 0xfa232cf3 7) H).
Defined.

(** The operations on the table of the six keys. *)
Lemma operations_are_safe_witness :
  (forall k v, (exists s' b, Set_ primeInfo k v (after six_sets) = (s', Ok b)) \/
               (exists s', Set_ primeInfo k v (after six_sets) = (s', NoMemory))) /\
  (forall k pVal, exists s' b, Lookup k pVal (after six_sets) = (s', Ok b)) /\
  (forall k, exists o, LookupPointer k (after six_sets) = (after six_sets, Ok o)) /\
  (forall k, m_table (after six_sets) <> None ->
             exists s' b, Remove k (after six_sets) = (s', Ok b)) /\
  (exists s', RemoveAll (after six_sets) = (s', Ok tt)) /\
  (forall n, (exists s', Reallocate primeInfo n (after six_sets) = (s', Ok tt)) \/
             Reallocate primeInfo n (after six_sets) = (after six_sets, NoMemory)) /\
  ((exists s', Grow primeInfo (after six_sets) = (s', Ok tt)) \/
   Grow primeInfo (after six_sets) = (after six_sets, NoMemory)).
Proof.
  assert (H : run_ops primeInfo six_sets (New ∅) = (after six_sets, Ok tt))
    by (vm_compute; reflexivity).
  exact (operations_are_safe primeInfo six_sets ∅ (after six_sets) H).
Defined.

(** With room for two nodes, the third insertion ends in [NoMemory]
    after the search; the two keys are as they were. *)
Lemma Set_NoMemory_keeps_contents_witness :
  let run := @run_ops Z Z ZKeyFuncs DefaultBehavior TwoNodeAllocator primeInfo in
  let set := @Set_ Z Z ZKeyFuncs DefaultBehavior TwoNodeAllocator primeInfo in
  let s := (run [OpSet 1 10; OpSet 2 20] (New ∅)).1 in
  let s' := (set 3 30 s).1 in
  table_ok s' /\
  relinked (nodes s) (nodes s') /\
  m_tableCount s' = m_tableCount s /\
  cells s' = cells s /\
  (forall k', exists o, FindNode k' s = (s, Ok o) /\ FindNode k' s' = (s', Ok o)) /\
  (s' = s \/
   @Alloc _ TwoNodeAllocator (nodes s') = None /\
   forall pVal, Lookup 3 pVal s = (s, Ok false)).
Proof.
  intros run set s s'.
  assert (H : run [OpSet 1 10; OpSet 2 20] (New ∅) = (s, Ok tt))
    by (vm_compute; reflexivity).
  assert (H' : set 3 30 s = (s', NoMemory)) by (vm_compute; reflexivity).
  exact (@Set_NoMemory_keeps_contents Z Z ZKeyFuncs DefaultBehavior
           TwoNodeAllocator primeInfo _ _ TwoNodeAllocatorLaws
           [OpSet 1 10; OpSet 2 20] ∅ s s' 3 30 H H').
Defined.

(** The key 7 is inserted in the table of the six keys, which grows to
    23 buckets, and removed again. *)
Lemma Set_then_Remove_restores_witness :
  false = false /\ true = true /\
  relinked (nodes (after six_sets))
           (nodes (Remove 7 (Set_ primeInfo 7 70 (after six_sets)).1).1) /\
  m_tableCount (Remove 7 (Set_ primeInfo 7 70 (after six_sets)).1).1
    = m_tableCount (after six_sets) /\
  cells (Remove 7 (Set_ primeInfo 7 70 (after six_sets)).1).1
    = cells (after six_sets) /\
  (forall k', exists o,
     FindNode k' (after six_sets) = (after six_sets, Ok o) /\
     FindNode k' (Remove 7 (Set_ primeInfo 7 70 (after six_sets)).1).1
       = ((Remove 7 (Set_ primeInfo 7 70 (after six_sets)).1).1, Ok o)).
Proof.
  assert (H : run_ops primeInfo six_sets (New ∅) = (after six_sets, Ok tt))
    by (vm_compute; reflexivity).
  assert (H0 : Lookup 7 None (after six_sets) = (after six_sets, Ok false))
    by (vm_compute; reflexivity).
  assert (H1 : Set_ primeInfo 7 70 (after six_sets)
               = ((Set_ primeInfo 7 70 (after six_sets)).1, Ok false))
    by (vm_compute; reflexivity).
  assert (H2 : Remove 7 (Set_ primeInfo 7 70 (after six_sets)).1
               = ((Remove 7 (Set_ primeInfo 7 70 (after six_sets)).1).1, Ok true))
    by (vm_compute; reflexivity).
  exact (Set_then_Remove_restores primeInfo six_sets ∅ (after six_sets) _ _
           7 70 false true H H0 H1 H2).
Defined.
